(** * Snapshot and change-detection engine of the X-UI reminder bot

    A shallow embedding of the Python services under [src/bot]:
    - [services/data_processor.py]: [calculate_client_status],
      [extract_clients_from_inbound];
    - [services/snapshot_builder.py]: [_calc_status_for_client],
      [_extract_clients_from_inbound] and the per-panel body of
      [build_snapshot];
    - [schedulers/change_detection.py]: the per-viewer body of
      [check_for_changes];
    - [database/repositories/report_repository.py]: [save_snapshot],
      [get_last_snapshot], [get_last_report_time] and
      [update_report_time];
    - [utils/text_helpers.py]: [safe_text], which the notification
      formatters apply to panel names and client identifiers.

    Python values are modelled by [PyVal] (the values [json.loads] and the
    panel API produce), Python exceptions by [py_exn] and fallible code by
    the [res] monad.  Python floats are Rocq's primitive binary64 floats. *)

From Stdlib Require Import ZArith List String Ascii Bool Permutation Lia.
From Stdlib Require Import Floats DecimalString Sorted.
Import ListNotations.

Local Open Scope Z_scope.
Local Set Warnings "-register-all".

(* ------------------------------------------------------------------ *)
(** ** Python values, exceptions and the result monad *)

Inductive py_exn :=
| ValueError
| TypeError
| KeyError
| OverflowError
| AttributeError
| JSONDecodeError
| RecursionError.

Inductive res (A : Type) : Type :=
| Ok (a : A)
| Err (e : py_exn).
Arguments Ok {A} a.
Arguments Err {A} e.

Definition bind {A B : Type} (m : res A) (k : A -> res B) : res B :=
  match m with
  | Ok a => k a
  | Err e => Err e
  end.

Notation "x <- m ;; k" := (bind m (fun x => k))
  (at level 61, m at next level, right associativity).

(** Dictionary keys: the snapshot dictionaries use integer panel ids
    (database rows) and string keys (everything read from JSON). *)
Inductive PyKey : Type :=
| KInt (z : Z)
| KStr (s : string).

(** A Python [str] is held as the UTF-8 encoding of its code points (a
    lone surrogate encoded like any other code point), so that comparing
    the encodings byte by byte compares the strings code point by code
    point. *)
Inductive PyVal : Type :=
| PNone
| PBool (b : bool)
| PInt (z : Z)
| PFloat (f : float)
| PStr (s : string)
| PList (l : list PyVal)
| PDict (d : list (PyKey * PyVal)).

(** Truth value of a Python object ([bool(x)]). *)
Definition py_truthy (v : PyVal) : bool :=
  match v with
  | PNone => false
  | PBool b => b
  | PInt z => negb (Z.eqb z 0)
  | PFloat f => negb (PrimFloat.eqb f PrimFloat.zero)
  | PStr s => negb (String.eqb s EmptyString)
  | PList l => match l with [] => false | _ => true end
  | PDict d => match d with [] => false | _ => true end
  end.

(** [a or b] *)
Definition py_or (a b : PyVal) : PyVal := if py_truthy a then a else b.

Definition key_eqb (k1 k2 : PyKey) : bool :=
  match k1, k2 with
  | KInt a, KInt b => Z.eqb a b
  | KStr a, KStr b => String.eqb a b
  | _, _ => false
  end.

Fixpoint dict_lookup (k : PyKey) (d : list (PyKey * PyVal)) : option PyVal :=
  match d with
  | [] => None
  | (k', v) :: d' => if key_eqb k k' then Some v else dict_lookup k d'
  end.

(** [o.get(k, dflt)]: only dictionaries have [get]. *)
Definition py_get_key (o : PyVal) (k : PyKey) (dflt : PyVal) : res PyVal :=
  match o with
  | PDict d => Ok (match dict_lookup k d with Some v => v | None => dflt end)
  | _ => Err AttributeError
  end.

Definition py_get (o : PyVal) (k : string) (dflt : PyVal) : res PyVal :=
  py_get_key o (KStr k) dflt.

(** [k in d] for a dictionary [d] and a string key. *)
Definition dict_has (d : list (PyKey * PyVal)) (k : string) : bool :=
  match dict_lookup (KStr k) d with Some _ => true | None => false end.

Definition is_list (v : PyVal) : bool :=
  match v with PList _ => true | _ => false end.

Definition is_dict (v : PyVal) : bool :=
  match v with PDict _ => true | _ => false end.

(** Length of the UTF-8 sequence a byte starts ([0] for a byte that
    starts none). *)
Definition utf8_len (b : ascii) : nat :=
  let n := nat_of_ascii b in
  if Nat.ltb n 128 then 1
  else if andb (Nat.leb 192 n) (Nat.ltb n 224) then 2
  else if andb (Nat.leb 224 n) (Nat.ltb n 240) then 3
  else if andb (Nat.leb 240 n) (Nat.ltb n 248) then 4
  else 0.

(** The characters of a string, each as its own encoding. *)
Fixpoint utf8_chars (l : list ascii) : list string :=
  match l with
  | [] => []
  | b1 :: r1 =>
      match utf8_len b1, r1 with
      | 2%nat, b2 :: r2 => String b1 (String b2 EmptyString) :: utf8_chars r2
      | 3%nat, b2 :: b3 :: r3 =>
          String b1 (String b2 (String b3 EmptyString)) :: utf8_chars r3
      | 4%nat, b2 :: b3 :: b4 :: r4 =>
          String b1 (String b2 (String b3 (String b4 EmptyString))) :: utf8_chars r4
      | _, _ => String b1 EmptyString :: utf8_chars r1
      end
  end.

(** [for x in v]: iterating a list gives its items, a string its
    characters, a dictionary its keys; other objects are not iterable. *)
Definition key_val (k : PyKey) : PyVal :=
  match k with KInt z => PInt z | KStr s => PStr s end.

Definition py_iter (v : PyVal) : res (list PyVal) :=
  match v with
  | PList l => Ok l
  | PStr s => Ok (map PStr (utf8_chars (list_ascii_of_string s)))
  | PDict d => Ok (map (fun kv => key_val (fst kv)) d)
  | _ => Err TypeError
  end.

(* ------------------------------------------------------------------ *)
(** ** Floats: conversions and mixed int/float comparisons *)

(** [float(z)] for a Python int: correctly rounded, [OverflowError] when
    the rounded value is out of range. *)
Definition float_of_Z (z : Z) : res float :=
  match SpecFloat.binary_normalize prec emax z 0 false with
  | S754_infinity _ => Err OverflowError
  | sf => Ok (SF2Prim sf)
  end.

(** [int(f)] for a Python float: truncation towards zero. *)
Definition float_trunc (f : float) : res Z :=
  match Prim2SF f with
  | S754_nan => Err ValueError
  | S754_infinity _ => Err OverflowError
  | S754_zero _ => Ok 0
  | S754_finite s m e =>
      let a := if Z.leb 0 e then Z.pos m * 2 ^ e else Z.pos m / 2 ^ (- e) in
      Ok (if s then - a else a)
  end.

(** Exact comparison of a float with an int, as Python does it
    ([None] for NaN, where every comparison is false). *)
Definition float_cmp_Z (f : float) (z : Z) : option comparison :=
  match Prim2SF f with
  | S754_nan => None
  | S754_infinity s => Some (if s then Lt else Gt)
  | S754_zero _ => Some (Z.compare 0 z)
  | S754_finite s m e =>
      let sm := if s then Z.neg m else Z.pos m in
      if Z.leb 0 e then Some (Z.compare (sm * 2 ^ e) z)
      else Some (Z.compare sm (z * 2 ^ (- e)))
  end.

Definition float_gt_Z (f : float) (z : Z) : bool :=
  match float_cmp_Z f z with Some Gt => true | _ => false end.

Definition float_le_Z (f : float) (z : Z) : bool :=
  match float_cmp_Z f z with Some Lt | Some Eq => true | _ => false end.

Definition gib_f : float := Eval compute in SF2Prim (SpecFloat.binary_normalize prec emax (1024 ^ 3) 0 false).
Definition thousand_f : float := Eval compute in SF2Prim (SpecFloat.binary_normalize prec emax 1000 0 false).

(** Literals accepted by [int(str)] and [float(str)].  CPython first
    rewrites the text: ASCII characters stay, other white space becomes a
    space, other decimal digits become the ASCII digit of their value, and
    any other character ends the text with a [?], which no literal
    contains.  The Unicode tables are those of the Unicode 14.0 database
    of CPython 3.11.  Then surrounding ASCII white space is stripped, a
    sign is optional and digits may be separated by single underscores. *)

(** Code points of the bytes of an encoded string; a byte that starts no
    complete sequence reads as U+FFFD. *)
Definition utf8_cont (b : ascii) : Z := Z.land (Z.of_nat (nat_of_ascii b)) 63.

Fixpoint utf8_decode (l : list ascii) : list Z :=
  match l with
  | [] => []
  | b1 :: r1 =>
      let n1 := Z.of_nat (nat_of_ascii b1) in
      match utf8_len b1, r1 with
      | 1%nat, _ => n1 :: utf8_decode r1
      | 2%nat, b2 :: r2 => (Z.land n1 31 * 64 + utf8_cont b2) :: utf8_decode r2
      | 3%nat, b2 :: b3 :: r3 =>
          (Z.land n1 15 * 4096 + utf8_cont b2 * 64 + utf8_cont b3) :: utf8_decode r3
      | 4%nat, b2 :: b3 :: b4 :: r4 =>
          (Z.land n1 7 * 262144 + utf8_cont b2 * 4096 + utf8_cont b3 * 64 + utf8_cont b4)
            :: utf8_decode r4
      | _, _ => 0xfffd :: utf8_decode r1
      end
  end.

(** The digit zeros of the ranges of ten code points that carry a
    decimal digit value. *)
Definition unicode_decimal_zeros : list Z :=
  [0x30; 0x660; 0x6f0; 0x7c0; 0x966; 0x9e6; 0xa66; 0xae6; 0xb66; 0xbe6; 0xc66;
   0xce6; 0xd66; 0xde6; 0xe50; 0xed0; 0xf20; 0x1040; 0x1090; 0x17e0; 0x1810;
   0x1946; 0x19d0; 0x1a80; 0x1a90; 0x1b50; 0x1bb0; 0x1c40; 0x1c50; 0xa620;
   0xa8d0; 0xa900; 0xa9d0; 0xa9f0; 0xaa50; 0xabf0; 0xff10; 0x104a0; 0x10d30;
   0x11066; 0x110f0; 0x11136; 0x111d0; 0x112f0; 0x11450; 0x114d0; 0x11650;
   0x116c0; 0x11730; 0x118e0; 0x11950; 0x11c50; 0x11d50; 0x11da0; 0x16a60;
   0x16ac0; 0x16b50; 0x1d7ce; 0x1d7d8; 0x1d7e2; 0x1d7ec; 0x1d7f6; 0x1e140;
   0x1e2f0; 0x1e950; 0x1fbf0].

(** [Py_UNICODE_TODECIMAL] *)
Definition unicode_decimal (cp : Z) : option Z :=
  match find (fun z => andb (Z.leb z cp) (Z.ltb cp (z + 10))) unicode_decimal_zeros with
  | Some z => Some (cp - z)
  | None => None
  end.

(** [Py_UNICODE_ISSPACE] above U+007F. *)
Definition unicode_space (cp : Z) : bool :=
  existsb (Z.eqb cp)
    [0x85; 0xa0; 0x1680; 0x2000; 0x2001; 0x2002; 0x2003; 0x2004; 0x2005; 0x2006;
     0x2007; 0x2008; 0x2009; 0x200a; 0x2028; 0x2029; 0x202f; 0x205f; 0x3000].

(** [_PyUnicode_TransformDecimalAndSpaceToASCII] *)
Fixpoint to_ascii_digits (cps : list Z) : list ascii :=
  match cps with
  | [] => []
  | cp :: r =>
      if Z.ltb cp 127 then ascii_of_nat (Z.to_nat cp) :: to_ascii_digits r
      else if unicode_space cp then " "%char :: to_ascii_digits r
      else match unicode_decimal cp with
           | Some d => ascii_of_nat (Z.to_nat (48 + d)) :: to_ascii_digits r
           | None => ["?"%char]
           end
  end.

Definition literal_chars (s : string) : list ascii :=
  to_ascii_digits (utf8_decode (list_ascii_of_string s)).

(** [Py_ISSPACE] *)
Definition is_space (c : ascii) : bool :=
  match nat_of_ascii c with 32 | 9 | 10 | 11 | 12 | 13 => true | _ => false end%nat.

Fixpoint drop_spaces (l : list ascii) : list ascii :=
  match l with
  | c :: l' => if is_space c then drop_spaces l' else l
  | [] => []
  end.

Definition strip (l : list ascii) : list ascii := rev (drop_spaces (rev (drop_spaces l))).

Definition digit_val (c : ascii) : option Z :=
  let n := nat_of_ascii c in
  if andb (Nat.leb 48 n) (Nat.leb n 57) then Some (Z.of_nat n - 48) else None.

(** [digit (["_"] digit)*], greedily: value, number of digits, rest. *)
Fixpoint scan_digits (acc : Z) (cnt : nat) (l : list ascii) : Z * nat * list ascii :=
  match l with
  | [] => (acc, cnt, [])
  | c :: rest =>
      match digit_val c with
      | Some d => scan_digits (acc * 10 + d) (S cnt) rest
      | None =>
          if Ascii.eqb c "_"%char then
            match rest with
            | c2 :: rest2 =>
                match digit_val c2, cnt with
                | Some d, S _ => scan_digits (acc * 10 + d) (S cnt) rest2
                | _, _ => (acc, cnt, l)
                end
            | [] => (acc, cnt, l)
            end
          else (acc, cnt, l)
      end
  end.

Definition scan_sign (l : list ascii) : bool * list ascii :=
  match l with
  | c :: l' => if Ascii.eqb c "-"%char then (true, l')
               else if Ascii.eqb c "+"%char then (false, l') else (false, l)
  | [] => (false, l)
  end.

(** [sys.get_int_max_str_digits()]: the default limit on the decimal
    digits [int(str)] reads and [str(int)] writes. *)
Definition max_str_digits : Z := 4300.

(** [int(s)]: more than [max_str_digits] digits (underscores, sign and
    white space not counted) is a [ValueError], as an invalid literal is. *)
Definition parse_int_literal (s : string) : option Z :=
  let '(neg, l) := scan_sign (strip (literal_chars s)) in
  match scan_digits 0 0 l with
  | (v, S n, []) =>
      if Z.leb (Z.of_nat (S n)) max_str_digits then Some (if neg then - v else v) else None
  | _ => None
  end.

Definition ascii_lower (c : ascii) : ascii :=
  let n := nat_of_ascii c in
  if andb (Nat.leb 65 n) (Nat.leb n 90) then ascii_of_nat (n + 32) else c.

(** Correctly rounded value of [(-1)^neg * m * 10^e10]. *)
Definition decimal_to_float (neg : bool) (m e10 : Z) : float :=
  SF2Prim
    (if Z.eqb m 0 then S754_zero neg
     else if Z.leb 0 e10 then
       SpecFloat.binary_round prec emax neg (Z.to_pos (m * 10 ^ e10)) 0
     else
       let '(mz, ez, lz) := SpecFloat.SFdiv_core_binary prec emax m 0 (10 ^ (- e10)) 0 in
       SpecFloat.binary_round_aux prec emax neg mz ez lz).

Definition parse_float_literal (s : string) : option float :=
  let '(neg, l) := scan_sign (strip (literal_chars s)) in
  let low := string_of_list_ascii (map ascii_lower l) in
  if orb (String.eqb low "inf") (String.eqb low "infinity") then
    Some (if neg then PrimFloat.neg_infinity else PrimFloat.infinity)
  else if String.eqb low "nan" then Some PrimFloat.nan
  else
    let '(a, n1, r1) := scan_digits 0 0 l in
    let '(b, n2, r2) :=
      match r1 with
      | c :: r1' => if Ascii.eqb c "."%char then scan_digits 0 0 r1' else (0, 0%nat, r1)
      | [] => (0, 0%nat, r1)
      end in
    let mant := a * 10 ^ Z.of_nat n2 + b in
    match (n1 + n2)%nat with
    | O => None
    | _ =>
        match r2 with
        | [] => Some (decimal_to_float neg mant (- Z.of_nat n2))
        | c :: r2' =>
            if orb (Ascii.eqb c "e"%char) (Ascii.eqb c "E"%char) then
              let '(eneg, r3) := scan_sign r2' in
              match scan_digits 0 0 r3 with
              | (x, S _, []) =>
                  Some (decimal_to_float neg mant ((if eneg then - x else x) - Z.of_nat n2))
              | _ => None
              end
            else None
        end
    end.

(** [int(v)] *)
Definition py_int (v : PyVal) : res Z :=
  match v with
  | PInt z => Ok z
  | PBool b => Ok (if b then 1 else 0)
  | PFloat f => float_trunc f
  | PStr s => match parse_int_literal s with Some z => Ok z | None => Err ValueError end
  | _ => Err TypeError
  end.

(** [float(v)] *)
Definition py_float (v : PyVal) : res float :=
  match v with
  | PInt z => float_of_Z z
  | PBool b => Ok (if b then PrimFloat.one else PrimFloat.zero)
  | PFloat f => Ok f
  | PStr s => match parse_float_literal s with Some f => Ok f | None => Err ValueError end
  | _ => Err TypeError
  end.

(** [str(z)] for an int writes at most [max_str_digits] digits.  The
    first test, [|z| < 2^13975 < 10^4300], spares computing [10^4300]. *)
Definition int_fits (z : Z) : bool :=
  if Z.ltb (Z.log2 (Z.abs z)) 13975 then true
  else Z.ltb (Z.abs z) (10 ^ max_str_digits).

Definition int_str (z : Z) : res unit :=
  if int_fits z then Ok tt else Err ValueError.

(** [repr(v)], [str(v)] and [format(v)] inside an f-string: writing
    an int with too many digits raises [ValueError]; each nested list or
    dictionary takes one more level of the interpreter's recursion limit,
    and [budget] is the number of levels left at the call, which depends
    on the depth of the caller's stack ([RecursionError] beyond).  Items
    are written in order, a key before its value. *)
Fixpoint py_format (budget : nat) (v : PyVal) {struct v} : res unit :=
  match v with
  | PInt z => int_str z
  | PList l =>
      match budget with
      | O => Err RecursionError
      | S b =>
          (fix go (l : list PyVal) : res unit :=
             match l with
             | [] => Ok tt
             | x :: r => _ <- py_format b x;; go r
             end) l
      end
  | PDict d =>
      match budget with
      | O => Err RecursionError
      | S b =>
          (fix go (d : list (PyKey * PyVal)) : res unit :=
             match d with
             | [] => Ok tt
             | (k, x) :: r =>
                 _ <- match k with KInt z => int_str z | KStr _ => Ok tt end;;
                 _ <- py_format b x;; go r
             end) d
      end
  | _ => Ok tt
  end.

(** Python's [int / float]: the int is converted to a float first. *)
Definition int_div_float (z : Z) (f : float) : res float :=
  x <- float_of_Z z;; Ok (PrimFloat.div x f).

(* ------------------------------------------------------------------ *)
(** ** Status classifiers *)

Section Classifier.

(** [config/settings.py]: [EXPIRING_DAYS_THRESHOLD * 24 * 3600] and
    [EXPIRING_GB_THRESHOLD * 1024**3], read from the environment. *)
Variable EXPIRING_SECONDS_THRESHOLD EXPIRING_BYTES_THRESHOLD : Z.

(** [int(client.get(k, 0) or 0)] *)
Definition get_int_or0 (client : PyVal) (k : string) : res Z :=
  v <- py_get client k (PInt 0);; py_int (py_or v (PInt 0)).

(** [int(client.get("expiryTime", 0) or client.get("expire", 0)
         or client.get("expiry", 0) or 0)], with [or] short-circuiting. *)
Definition get_expiry_ms (client : PyVal) : res Z :=
  e1 <- py_get client "expiryTime" (PInt 0);;
  if py_truthy e1 then py_int e1 else
  e2 <- py_get client "expire" (PInt 0);;
  if py_truthy e2 then py_int e2 else
  e3 <- py_get client "expiry" (PInt 0);;
  py_int (py_or e3 (PInt 0)).

(** [int(float(v) * (1024**3))] *)
Definition gb_to_bytes (v : PyVal) : res Z :=
  g <- py_float v;; float_trunc (PrimFloat.mul g gib_f).

(** The quota branch shared by both classifiers: [totalGB] (GiB), then
    [total] (bytes), then, only when [with_limit] holds, the [limit]
    fallback (GiB) that [calculate_client_status] has and
    [_calc_status_for_client] lacks. *)
Definition total_bytes_of (with_limit : bool) (client : PyVal) : res Z :=
  gb_raw <- py_get client "totalGB" (PInt 0);;
  let total_gb_val := py_or gb_raw (PInt 0) in
  tb_raw <- py_get client "total" (PInt 0);;
  let total_bytes_val := py_or tb_raw (PInt 0) in
  g <- py_float (py_or total_gb_val (PInt 0));;
  if float_gt_Z g 0 then gb_to_bytes total_gb_val else
  t <- py_float (py_or total_bytes_val (PInt 0));;
  if float_gt_Z t 0 then (t' <- py_float total_bytes_val;; float_trunc t') else
  if with_limit then
    (alt_raw <- py_get client "limit" (PInt 0);;
     let alt_total_gb := py_or alt_raw (PInt 0) in
     a <- py_float alt_total_gb;;
     if float_gt_Z a 0 then gb_to_bytes alt_total_gb else Ok 0)
  else Ok 0.

(** The [logger.debug] lines of [calculate_client_status] whose f-string
    can raise: lines 58-61 (client email, used, total and left bytes),
    lines 66-70 and 92-95 (client email and booleans), line 87 (left
    bytes).  The lines 38, 41 and 46 only write values [float()] accepted
    (a bool, a float, a string or an int below 2^1024) and ints below
    2^1054, and line 81 a float: they never raise. *)
Inductive log_line :=
| LogUsage (used total rest : Z)
| LogStatus
| LogQuotaLeft (rest : Z).

(** The body of the [try] block of both classifiers; [log] evaluates the
    f-string of a debug line ([_calc_status_for_client] has none). *)
Definition classify_body (with_limit : bool) (log : log_line -> res unit)
    (client : PyVal) (now : float) : res (bool * bool) :=
  up <- get_int_or0 client "up";;
  down <- get_int_or0 client "down";;
  let used_bytes := up + down in
  total_bytes <- total_bytes_of with_limit client;;
  expiry_ms <- get_expiry_ms client;;
  let left_bytes := if Z.ltb 0 total_bytes then Some (total_bytes - used_bytes) else None in
  _ <- (if Z.ltb 0 total_bytes
        then log (LogUsage used_bytes total_bytes (total_bytes - used_bytes)) else Ok tt);;
  let expired_quota := match left_bytes with Some l => Z.leb l 0 | None => false end in
  expired_time <-
    (if Z.ltb 0 expiry_ms then
       (x <- int_div_float expiry_ms thousand_f;; Ok (PrimFloat.leb x now))
     else Ok false);;
  let is_expired := expired_quota || expired_time in
  _ <- log LogStatus;;
  is_expiring <-
    (if is_expired then Ok false else
     expiring_time <-
       (if Z.ltb 0 expiry_ms then
          (x <- int_div_float expiry_ms thousand_f;;
           let secs_left := PrimFloat.sub x now in
           Ok (float_gt_Z secs_left 0 && float_le_Z secs_left EXPIRING_SECONDS_THRESHOLD))
        else Ok false);;
     expiring_quota <-
       match left_bytes with
       | Some l =>
           if Z.ltb 0 total_bytes && Z.ltb 0 l && Z.leb l EXPIRING_BYTES_THRESHOLD
           then (_ <- log (LogQuotaLeft l);; Ok true) else Ok false
       | None => Ok false
       end;;
     Ok (expiring_time || expiring_quota));;
  _ <- log LogStatus;;
  Ok (is_expiring, is_expired).

(** [except (ValueError, TypeError, KeyError): return False, False];
    any other exception propagates. *)
Definition catch_classify (r : res (bool * bool)) : res (bool * bool) :=
  match r with
  | Err ValueError | Err TypeError | Err KeyError => Ok (false, false)
  | _ => r
  end.

Definition no_log (_ : log_line) : res unit := Ok tt.

(** [services/snapshot_builder.py: _calc_status_for_client]: its handler
    only writes the exception. *)
Definition _calc_status_for_client (client : PyVal) (now : float) : res (bool * bool) :=
  catch_classify (classify_body false no_log client now).

(** [repr_budget]: the levels of nesting [repr] can still enter at the log
    lines of [calculate_client_status] (see [py_format]). *)
Variable repr_budget : nat.

(** [client.get('email', 'unknown')] in an f-string. *)
Definition log_email (client : PyVal) : res unit :=
  email <- py_get client "email" (PStr "unknown");; py_format repr_budget email.

Definition dp_log (client : PyVal) (l : log_line) : res unit :=
  match l with
  | LogUsage used total rest =>
      _ <- log_email client;; _ <- int_str used;; _ <- int_str total;; int_str rest
  | LogStatus => log_email client
  | LogQuotaLeft rest => int_str rest
  end.

(** The handler of [calculate_client_status]: its warning writes the
    client email and the exception, its debug line the whole client; an
    exception raised there propagates. *)
Definition dp_catch (client : PyVal) (r : res (bool * bool)) : res (bool * bool) :=
  match r with
  | Err ValueError | Err TypeError | Err KeyError =>
      _ <- log_email client;;
      _ <- py_format repr_budget client;;
      Ok (false, false)
  | _ => r
  end.

(** [services/data_processor.py: calculate_client_status] *)
Definition calculate_client_status (client : PyVal) (now : float) : res (bool * bool) :=
  dp_catch client (classify_body true (dp_log client) client now).

End Classifier.

(** Default thresholds ([EXPIRING_DAYS_THRESHOLD = 1],
    [EXPIRING_GB_THRESHOLD = 1]). *)
Definition default_seconds_threshold : Z := 1 * 24 * 3600.
Definition default_bytes_threshold : Z := 1 * 1024 ^ 3.

(* ------------------------------------------------------------------ *)
(** ** Python sets and [sorted] *)

Definition py_hashable (v : PyVal) : bool :=
  match v with PList _ | PDict _ => false | _ => true end.

(** Numeric value of a bool, int or float, for cross-type comparisons. *)
Inductive num := NInt (z : Z) | NFloat (f : float).

Definition num_of (v : PyVal) : option num :=
  match v with
  | PBool b => Some (NInt (if b then 1 else 0))
  | PInt z => Some (NInt z)
  | PFloat f => Some (NFloat f)
  | _ => None
  end.

Definition num_cmp (a b : num) : option comparison :=
  match a, b with
  | NInt x, NInt y => Some (Z.compare x y)
  | NFloat f, NInt y => float_cmp_Z f y
  | NInt x, NFloat g => option_map CompOpp (float_cmp_Z g x)
  | NFloat f, NFloat g =>
      if PrimFloat.ltb f g then Some Lt
      else if PrimFloat.eqb f g then Some Eq
      else if PrimFloat.ltb g f then Some Gt else None
  end.

(** [a == b] on hashable values ([1 == 1.0 == True]). *)
Definition py_eq (a b : PyVal) : bool :=
  match a, b with
  | PNone, PNone => true
  | PStr x, PStr y => String.eqb x y
  | _, _ =>
      match num_of a, num_of b with
      | Some x, Some y => match num_cmp x y with Some Eq => true | _ => false end
      | _, _ => false
      end
  end.

(** A set is the list of its members, without two equal ones.  (Identity
    checks, which let a NaN object be found in a set, are not modelled.) *)
Definition set_mem (v : PyVal) (s : list PyVal) : res bool :=
  if py_hashable v then Ok (existsb (py_eq v) s) else Err TypeError.

(** [s.add(v)] *)
Definition set_add (v : PyVal) (s : list PyVal) : res (list PyVal) :=
  if py_hashable v then Ok (if existsb (py_eq v) s then s else s ++ [v])
  else Err TypeError.

Fixpoint set_of_list_aux (acc : list PyVal) (l : list PyVal) : res (list PyVal) :=
  match l with
  | [] => Ok acc
  | v :: l' => acc' <- set_add v acc;; set_of_list_aux acc' l'
  end.

(** [set(iterable)] *)
Definition py_set (v : PyVal) : res (list PyVal) :=
  l <- py_iter v;; set_of_list_aux [] l.

(** [a - b] on sets, listing the members of [a] in [a]'s order. *)
Definition set_diff (a b : list PyVal) : list PyVal :=
  filter (fun x => negb (existsb (py_eq x) b)) a.

Fixpoint insert_by {A : Type} (le : A -> A -> bool) (x : A) (l : list A) : list A :=
  match l with
  | [] => [x]
  | y :: l' => if le x y then x :: l else y :: insert_by le x l'
  end.

Definition sort_by {A : Type} (le : A -> A -> bool) (l : list A) : list A :=
  fold_right (insert_by le) [] l.

Definition all_strings (l : list PyVal) : option (list string) :=
  fold_right (fun v acc =>
    match v, acc with PStr s, Some r => Some (s :: r) | _, _ => None end) (Some []) l.

Definition all_numbers (l : list PyVal) : bool :=
  forallb (fun v => match num_of v with
                    | Some (NFloat f) => negb (PrimFloat.is_nan f)
                    | Some (NInt _) => true
                    | None => false end) l.

Definition num_le (a b : PyVal) : bool :=
  match num_of a, num_of b with
  | Some x, Some y => match num_cmp x y with Some Gt | None => false | _ => true end
  | _, _ => false
  end.

(** [sorted(s)] for the members [l] of a set.  A comparison sort compares
    every two neighbours of its output, so a list of two or more members
    mixing strings with numbers, or holding [None], raises [TypeError].
    Strings compare by code point, which is the byte order of their UTF-8
    encoding.  (Sets holding a NaN are outside this model and reported as
    [TypeError].) *)
Definition py_sorted (l : list PyVal) : res (list PyVal) :=
  match l with
  | [] | [_] => Ok l
  | _ =>
      match all_strings l with
      | Some ss => Ok (map PStr (sort_by String.leb ss))
      | None => if all_numbers l then Ok (sort_by num_le l) else Err TypeError
      end
  end.

(* ------------------------------------------------------------------ *)
(** ** Client extraction *)

Section Extraction.

(** [json.loads] on a string: [JSONDecodeError] for malformed text; it
    also raises a plain [ValueError] (an int literal of more than
    [max_str_digits] digits) and [RecursionError] (arrays or objects
    nested beyond the recursion limit). *)
Variable json_loads : string -> res PyVal.

(** The levels of nesting [repr] can still enter at the debug lines of
    [extract_clients_from_inbound] (see [py_format]). *)
Variable repr_budget : nat.


Fixpoint for_each {A : Type} (f : A -> res unit) (l : list A) : res unit :=
  match l with
  | [] => Ok tt
  | x :: r => _ <- f x;; for_each f r
  end.

(** [data_processor.py], the [settings] branch:
    [try: settings = json.loads(s) if str else s;
          if isinstance(settings, dict) and 'clients' in settings:
              if isinstance(settings['clients'], list):
                  clients = ...; logger.debug(f(inbound_id))
     except (json.JSONDecodeError, TypeError) as e:
          logger.debug(f(inbound_id, e))] *)
Definition dp_settings_clients (inbound_id : PyVal) (sv : PyVal) : res (list PyVal) :=
  let r :=
    settings <- (match sv with PStr s => json_loads s | _ => Ok sv end);;
    match settings with
    | PDict sd =>
        match dict_lookup (KStr "clients") sd with
        | Some (PList l) => _ <- py_format repr_budget inbound_id;; Ok l
        | _ => Ok []
        end
    | _ => Ok []
    end in
  match r with
  | Err JSONDecodeError | Err TypeError => _ <- py_format repr_budget inbound_id;; Ok []
  | _ => r
  end.

(** The [if]/[elif] chain of [extract_clients_from_inbound]; each branch
    that finds a list logs the inbound id. *)
Definition dp_select_clients (inbound_id : PyVal) (d : list (PyKey * PyVal))
  : res (list PyVal) :=
  match dict_lookup (KStr "clientStats") d with
  | Some (PList l) => _ <- py_format repr_budget inbound_id;; Ok l
  | _ =>
    match dict_lookup (KStr "settings") d with
    | Some sv => dp_settings_clients inbound_id sv
    | None =>
      match dict_lookup (KStr "clients") d with
      | Some (PList l) => _ <- py_format repr_budget inbound_id;; Ok l
      | _ =>
        match dict_lookup (KStr "client_list") d with
        | Some (PList l) => _ <- py_format repr_budget inbound_id;; Ok l
        | _ => Ok []
        end
      end
    end
  end.

(** The debug line for one of the first three clients:
    [email = client.get('email', 'no-email');
     total_gb = client.get('totalGB', client.get('total', 'N/A'))]. *)
Definition log_client (client : PyVal) : res unit :=
  email <- py_get client "email" (PStr "no-email");;
  t <- py_get client "total" (PStr "N/A");;
  total_gb <- py_get client "totalGB" t;;
  _ <- py_format repr_budget email;;
  py_format repr_budget total_gb.

(** [services/data_processor.py: extract_clients_from_inbound] *)
Definition extract_clients_from_inbound (inbound : PyVal) : res (list PyVal) :=
  match inbound with
  | PDict d =>
      let inbound_id :=
        match dict_lookup (KStr "id") d with Some v => v | None => PStr "unknown" end in
      clients <- dp_select_clients inbound_id d;;
      let valid_clients := filter is_dict clients in
      _ <- (if Nat.ltb (List.length valid_clients) (List.length clients)
            then py_format repr_budget inbound_id else Ok tt);;
      _ <- for_each log_client (firstn 3 valid_clients);;
      Ok valid_clients
  | _ => Ok []
  end.

(** [snapshot_builder.py], the [settings] branch: the value of
    [settings['clients']] is taken whatever its type; a bare [except]
    swallows every error of the [try]. *)
Definition sb_settings_clients (sv : PyVal) : PyVal :=
  let settings := match sv with PStr s => json_loads s | _ => Ok sv end in
  match settings with
  | Ok (PDict sd) =>
      match dict_lookup (KStr "clients") sd with
      | Some c => c
      | None => PList []
      end
  | _ => PList []
  end.

Definition sb_select_clients (d : list (PyKey * PyVal)) : PyVal :=
  match dict_lookup (KStr "clientStats") d with
  | Some (PList l) => PList l
  | _ =>
    match dict_lookup (KStr "settings") d with
    | Some sv => sb_settings_clients sv
    | None =>
      match dict_lookup (KStr "clients") d with
      | Some (PList l) => PList l
      | _ => PList []
      end
    end
  end.

(** [services/snapshot_builder.py: _extract_clients_from_inbound]: the
    final comprehension iterates [clients] outside the [try]. *)
Definition _extract_clients_from_inbound (inbound : PyVal) : res (list PyVal) :=
  match inbound with
  | PDict d => cs <- py_iter (sb_select_clients d);; Ok (filter is_dict cs)
  | _ => Ok []
  end.

End Extraction.

(* ------------------------------------------------------------------ *)
(** ** Snapshot builder: the body of the per-panel loop *)

Section Builder.

Variable EXPIRING_SECONDS_THRESHOLD EXPIRING_BYTES_THRESHOLD : Z.
Variable json_loads : string -> res PyVal.

(** The four sets of [build_snapshot] and its usage totals. *)
Record panel_acc := mk_acc {
  all_users : list PyVal;
  online_users : list PyVal;
  expiring_users : list PyVal;
  expired_users : list PyVal;
  total_used : Z;
  total_capacity : Z;
  has_unlimited : bool
}.

Definition empty_acc : panel_acc := mk_acc [] [] [] [] 0 0 false.

Fixpoint fold_res {A B : Type} (f : A -> B -> res A) (a : A) (l : list B) : res A :=
  match l with
  | [] => Ok a
  | b :: l' => a' <- f a b;; fold_res f a' l'
  end.

(** [for client in clients:] (lines 169-184). *)
Definition process_client (online_clients : list PyVal) (now : float)
    (acc : panel_acc) (client : PyVal) : res panel_acc :=
  email <- py_get client "email" (PStr "");;
  if negb (py_truthy email) then Ok acc else
  au <- set_add email (all_users acc);;
  is_online <- set_mem email online_clients;;
  ou <- (if is_online then set_add email (online_users acc) else Ok (online_users acc));;
  st <- _calc_status_for_client EXPIRING_SECONDS_THRESHOLD EXPIRING_BYTES_THRESHOLD client now;;
  let '(is_expiring, is_expired) := st in
  if is_expired then
    ex <- set_add email (expired_users acc);;
    Ok (mk_acc au ou (expiring_users acc) ex (total_used acc) (total_capacity acc) (has_unlimited acc))
  else if is_expiring then
    eg <- set_add email (expiring_users acc);;
    Ok (mk_acc au ou eg (expired_users acc) (total_used acc) (total_capacity acc) (has_unlimited acc))
  else
    Ok (mk_acc au ou (expiring_users acc) (expired_users acc) (total_used acc) (total_capacity acc) (has_unlimited acc)).

(** [for inbound in filtered_inbounds:] (lines 154-184). *)
Definition process_inbound (online_clients : list PyVal) (now : float)
    (acc : panel_acc) (inbound : PyVal) : res panel_acc :=
  inbound_up <- get_int_or0 inbound "up";;
  inbound_down <- get_int_or0 inbound "down";;
  let used := total_used acc + (inbound_up + inbound_down) in
  inbound_total_bytes <- get_int_or0 inbound "total";;
  let acc1 :=
    if Z.eqb inbound_total_bytes 0
    then mk_acc (all_users acc) (online_users acc) (expiring_users acc) (expired_users acc)
                used (total_capacity acc) true
    else mk_acc (all_users acc) (online_users acc) (expiring_users acc) (expired_users acc)
                used (total_capacity acc + inbound_total_bytes) (has_unlimited acc) in
  clients <- _extract_clients_from_inbound json_loads inbound;;
  fold_res (process_client online_clients now) acc1 clients.

(** [x / (1024**3)] on ints inside the log line: correctly rounded true
    division, [OverflowError] once the quotient rounds to [2^1024]. *)
Definition log_gib (x : Z) : res unit :=
  if Z.leb (2 ^ 1054 - 2 ^ 1000) (Z.abs x) then Err OverflowError else Ok tt.

Definition len (l : list PyVal) : PyVal := PInt (Z.of_nat (List.length l)).

(** Lines 143-221 for one panel, from the fetched (and scope-filtered)
    inbounds and the fetched online identifiers to the panel's entry of
    [panels_snapshot].  Any error here is caught by the per-panel
    [except Exception], which skips the panel. *)
Definition build_panel_snapshot (panel_name : string) (filtered_inbounds : list PyVal)
    (online_list : list PyVal) (now : float) : res PyVal :=
  online_clients <- set_of_list_aux [] online_list;;
  acc <- fold_res (process_inbound online_clients now) empty_acc filtered_inbounds;;
  _ <- log_gib (total_used acc);;
  _ <- log_gib (total_capacity acc);;
  let remaining :=
    if has_unlimited acc then PNone
    else if Z.ltb 0 (total_capacity acc)
    then PInt (Z.max 0 (total_capacity acc - total_used acc))
    else PNone in
  su <- py_sorted (all_users acc);;
  so <- py_sorted (online_users acc);;
  sg <- py_sorted (expiring_users acc);;
  sx <- py_sorted (expired_users acc);;
  Ok (PDict
    [(KStr "panel_name", PStr panel_name);
     (KStr "counts", PDict
        [(KStr "users", len (all_users acc));
         (KStr "online", len (online_users acc));
         (KStr "expiring", len (expiring_users acc));
         (KStr "expired", len (expired_users acc))]);
     (KStr "usage", PDict
        [(KStr "used", PInt (total_used acc));
         (KStr "total", PInt (total_capacity acc));
         (KStr "remaining", remaining);
         (KStr "unlimited", PBool (has_unlimited acc))]);
     (KStr "lists", PDict
        [(KStr "users", PList su);
         (KStr "online", PList so);
         (KStr "expiring", PList sg);
         (KStr "expired", PList sx)])]).

(** The accumulated sets, before [sorted]. *)
Definition build_panel_sets (filtered_inbounds : list PyVal)
    (online_list : list PyVal) (now : float) : res panel_acc :=
  online_clients <- set_of_list_aux [] online_list;;
  fold_res (process_inbound online_clients now) empty_acc filtered_inbounds.

End Builder.

(* ------------------------------------------------------------------ *)
(** ** Snapshot store: [last_reports] through [json.dumps]/[json.loads] *)

(** A JSON document.  The [last_json] column holds the text [json.dumps]
    writes for a document; [json.loads] of that text gives back the same
    document (ints and floats print exactly, strings are escaped), so the
    column is modelled by the document itself. *)
Inductive Json : Type :=
| JNull
| JBool (b : bool)
| JInt (z : Z)
| JFloat (f : float)
| JStr (s : string)
| JArr (l : list Json)
| JObj (m : list (string * Json)).

(** [str(k)] as [json.dumps] writes a dictionary key. *)
Definition key_str (k : PyKey) : string :=
  match k with
  | KInt z => NilZero.string_of_int (Z.to_int z)
  | KStr s => s
  end.

(** [json.dumps] on the values of the model. *)
Fixpoint json_dumps (v : PyVal) : Json :=
  match v with
  | PNone => JNull
  | PBool b => JBool b
  | PInt z => JInt z
  | PFloat f => JFloat f
  | PStr s => JStr s
  | PList l => JArr (map json_dumps l)
  | PDict d => JObj (map (fun kv => (key_str (fst kv), json_dumps (snd kv))) d)
  end.

(** [d[k] = v]: a present key keeps its place and takes the new value. *)
Fixpoint dict_set (k : PyKey) (v : PyVal) (d : list (PyKey * PyVal)) : list (PyKey * PyVal) :=
  match d with
  | [] => [(k, v)]
  | (k', v') :: d' => if key_eqb k k' then (k', v) :: d' else (k', v') :: dict_set k v d'
  end.

(** [dict(pairs)]: the pairs inserted in order with [d[k] = v]. *)
Definition dict_of_pairs (l : list (PyKey * PyVal)) : list (PyKey * PyVal) :=
  fold_left (fun acc kv => dict_set (fst kv) (snd kv) acc) l [].

(** [json.loads]: objects become dictionaries with string keys, a repeated
    key keeping its first place and its last value. *)
Fixpoint json_loads_doc (j : Json) : PyVal :=
  match j with
  | JNull => PNone
  | JBool b => PBool b
  | JInt z => PInt z
  | JFloat f => PFloat f
  | JStr s => PStr s
  | JArr l => PList (map json_loads_doc l)
  | JObj m => PDict (dict_of_pairs (map (fun kx => (KStr (fst kx), json_loads_doc (snd kx))) m))
  end.

(** A row of [last_reports]: [last_json] ([None] for NULL) and
    [last_full_report]. *)
Record report_row := mk_row { last_json : option Json; last_full_report : Z }.

(** The table, keyed by [telegram_id]. *)
Definition report_table := list (Z * report_row).

Fixpoint table_lookup (tid : Z) (t : report_table) : option report_row :=
  match t with
  | [] => None
  | (tid', r) :: t' => if Z.eqb tid tid' then Some r else table_lookup tid t'
  end.

(** [INSERT OR REPLACE] on the primary key. *)
Definition table_replace (tid : Z) (r : report_row) (t : report_table) : report_table :=
  (tid, r) :: filter (fun p => negb (Z.eqb (fst p) tid)) t.

(** [ReportRepository.save_snapshot]; [now_int] is [int(time.time())]. *)
Definition save_snapshot (t : report_table) (telegram_id : Z) (snapshot : PyVal) (now_int : Z)
  : report_table :=
  table_replace telegram_id (mk_row (Some (json_dumps snapshot)) now_int) t.

(** [ReportRepository.get_last_snapshot] *)
Definition get_last_snapshot (t : report_table) (telegram_id : Z) : option PyVal :=
  match table_lookup telegram_id t with
  | None => None
  | Some r => match last_json r with
              | None => None
              | Some j => Some (json_loads_doc j)
              end
  end.

(** [ReportRepository.get_last_report_time]: [row[0] if row else None]. *)
Definition get_last_report_time (t : report_table) (telegram_id : Z) : option Z :=
  match table_lookup telegram_id t with
  | None => None
  | Some r => Some (last_full_report r)
  end.

(** [ReportRepository.update_report_time]: [UPDATE last_reports SET
    last_full_report=? WHERE telegram_id=?]; a viewer without a row is
    left without one. *)
Definition update_report_time (t : report_table) (telegram_id : Z) (now_int : Z)
  : report_table :=
  map (fun p => if Z.eqb (fst p) telegram_id
                then (fst p, mk_row (last_json (snd p)) now_int) else p) t.

(* ------------------------------------------------------------------ *)
(** ** Change detection: the body of the per-viewer loop *)

Inductive transition := enteredExpiring | enteredExpired.

(** One notification of [check_for_changes]: the arguments of
    [format_expiring_notification] / [format_expired_notification]. *)
Record change_event := mk_event {
  ev_panel_id : PyKey;
  ev_panel_name : PyVal;
  ev_client : PyVal;
  ev_transition : transition
}.

Section ChangeDetection.

(** The iteration order of a Python set: fixed by the salted string
    hashes of the process, hence a parameter. *)
Variable set_iter : list PyVal -> list PyVal.

(** [set(panel.get("lists", {}).get(field, []))] *)
Definition status_set (panel : PyVal) (field : string) : res (list PyVal) :=
  lists <- py_get panel "lists" (PDict []);;
  v <- py_get lists field (PList []);;
  py_set v.

(** [last_snap.get(str(panel_id), {})] *)
Definition prev_panel_of (last_snap : PyVal) (panel_id : PyKey) : res PyVal :=
  py_get_key last_snap (KStr (key_str panel_id)) (PDict []).

(** Lines 56-102 for one panel: the events the two sending loops go
    through, in their order.  (Sending, its 0.3 s pacing and the [break]
    on [TelegramForbiddenError] belong to the delivery side and are not
    modelled.) *)
Definition panel_changes (last_snap : PyVal) (panel_id : PyKey) (current_panel : PyVal)
  : res (list change_event) :=
  panel_name <- py_get current_panel "panel_name"
                  (PStr ("Panel " ++ key_str panel_id)%string);;
  current_expiring <- status_set current_panel "expiring";;
  current_expired <- status_set current_panel "expired";;
  prev_panel <- prev_panel_of last_snap panel_id;;
  prev_expiring <- status_set prev_panel "expiring";;
  prev_expired <- status_set prev_panel "expired";;
  let new_expiring := set_diff current_expiring prev_expiring in
  let new_expired := set_diff current_expired prev_expired in
  Ok (map (fun e => mk_event panel_id panel_name e enteredExpiring) (set_iter new_expiring)
      ++ map (fun e => mk_event panel_id panel_name e enteredExpired) (set_iter new_expired)).

(** [for panel_id, current_panel in current_snap.items():] — the events of
    the panels handled before an exception are already sent. *)
Fixpoint panels_loop (last_snap : PyVal) (items : list (PyKey * PyVal))
  : list change_event * option py_exn :=
  match items with
  | [] => ([], None)
  | (pid, cp) :: rest =>
      match panel_changes last_snap pid cp with
      | Ok evs => let '(evs', err) := panels_loop last_snap rest in (evs ++ evs', err)
      | Err e => ([], Some e)
      end
  end.

(** [not last_snap] *)
Definition snapshot_absent (last_snap : option PyVal) : bool :=
  match last_snap with
  | None => true
  | Some s => negb (py_truthy s)
  end.

(** Lines 41-104 for one [telegram_id], given the freshly built
    [current_snap]: the events emitted and the table afterwards.  An
    exception skips to the next viewer without saving. *)
Definition check_viewer (t : report_table) (telegram_id : Z) (current_snap : PyVal)
    (now_int : Z) : list change_event * report_table :=
  if negb (py_truthy current_snap) then ([], t) else
  let last_snap := get_last_snapshot t telegram_id in
  if snapshot_absent last_snap then ([], save_snapshot t telegram_id current_snap now_int) else
  match last_snap, current_snap with
  | Some ls, PDict items =>
      let '(evs, err) := panels_loop ls items in
      match err with
      | None => (evs, save_snapshot t telegram_id current_snap now_int)
      | Some _ => (evs, t)
      end
  | _, _ => ([], t)
  end.

End ChangeDetection.

(* ------------------------------------------------------------------ *)
(** ** Text helpers *)

(** The replacement [html.escape] makes for one character: ["&"] (38),
    ["<"] (60), [">"] (62), the double quote (34) and the single quote (39).  Strings
    are their UTF-8 bytes; the five characters are ASCII, so they are
    single bytes and no byte of a multi-byte character is one of them. *)
Definition escape_char (c : ascii) : string :=
  let n := nat_of_ascii c in
  if Nat.eqb n 38 then "&amp;"
  else if Nat.eqb n 60 then "&lt;"
  else if Nat.eqb n 62 then "&gt;"
  else if Nat.eqb n 34 then "&quot;"
  else if Nat.eqb n 39 then "&#x27;"
  else String c EmptyString.

(** [html.escape(s)] (with [quote=True]): the replacements
    [& -> &amp;], [< -> &lt;], [> -> &gt;], the double quote to
    [&quot;] and the single quote to [&#x27;], in this order.  The first one runs before the others
    introduce any ["&"], and none introduces a character a later one
    replaces, so the five passes amount to one pass replacing each
    character of [s]. *)
Fixpoint html_escape (s : string) : string :=
  match s with
  | EmptyString => EmptyString
  | String c s' => (escape_char c ++ html_escape s')%string
  end.

(** [utils/text_helpers.py: safe_text] for a [str] or [None]. *)
Definition safe_text (text : option string) : string :=
  match text with
  | None => EmptyString
  | Some s => html_escape s
  end.

(* ================================================================== *)
(** * Properties *)

Local Open Scope string_scope.
Local Open Scope list_scope.
#[local] Arguments py_eq : simpl never.

(** Induction over values, through the items of lists and dictionaries. *)
Section PyValInd.
Variable P : PyVal -> Prop.
Hypothesis P_none : P PNone.
Hypothesis P_bool : forall b, P (PBool b).
Hypothesis P_int : forall z, P (PInt z).
Hypothesis P_float : forall f, P (PFloat f).
Hypothesis P_str : forall s, P (PStr s).
Hypothesis P_list : forall l, Forall P l -> P (PList l).
Hypothesis P_dict : forall d, Forall (fun kv => P (snd kv)) d -> P (PDict d).

Fixpoint PyVal_ind' (v : PyVal) : P v :=
  match v with
  | PNone => P_none
  | PBool b => P_bool b
  | PInt z => P_int z
  | PFloat f => P_float f
  | PStr s => P_str s
  | PList l =>
      P_list l ((fix go (l : list PyVal) : Forall P l :=
                   match l with
                   | [] => Forall_nil P
                   | x :: l' => Forall_cons x (PyVal_ind' x) (go l')
                   end) l)
  | PDict d =>
      P_dict d ((fix go (d : list (PyKey * PyVal)) : Forall (fun kv => P (snd kv)) d :=
                   match d with
                   | [] => Forall_nil _
                   | (k, x) :: d' => Forall_cons (k, x) (PyVal_ind' x) (go d')
                   end) d)
  end.
End PyValInd.

(** ** Change detection: first cycle *)

(** [C1_empty_snapshot_not_stored] (claim C1): a viewer with no stored
    snapshot whose freshly built snapshot is empty ([{}]) is skipped: no
    baseline is stored for it. *)
Lemma C1_empty_snapshot_not_stored :
  get_last_snapshot [] 1 = None /\
  get_last_snapshot (snd (check_viewer (fun l => l) [] 1 (PDict []) 0)) 1 <> Some (PDict []).
Proof. split; [reflexivity | cbv; discriminate]. Qed.

(** [C1_first_cycle_baseline] (claim C1, amended): when the store holds no
    snapshot for the viewer (no row, NULL, or an empty one), the cycle
    emits no ChangeEvent, whatever the current snapshot holds; it stores
    the freshly built snapshot as the baseline when that snapshot is
    non-empty, and leaves the store unchanged otherwise. *)
Theorem C1_first_cycle_baseline :
  forall (set_iter : list PyVal -> list PyVal) (t : report_table) (tid : Z)
         (current_snap : PyVal) (now_int : Z),
  snapshot_absent (get_last_snapshot t tid) = true ->
  check_viewer set_iter t tid current_snap now_int =
    ([], if py_truthy current_snap then save_snapshot t tid current_snap now_int else t).
Proof.
  intros set_iter t tid current_snap now_int Habs.
  unfold check_viewer.
  destruct (py_truthy current_snap); simpl; [rewrite Habs |]; reflexivity.
Qed.

Definition expiring_panel (name : string) (ids : list string) : PyVal :=
  PDict [(KStr "panel_name", PStr name);
         (KStr "lists", PDict [(KStr "expiring", PList (map PStr ids));
                               (KStr "expired", PList [])])].

Lemma C1_first_cycle_baseline_witness :
  snapshot_absent (get_last_snapshot [] 1) = true /\
  check_viewer (fun l => l) [] 1 (PDict [(KInt 7, expiring_panel "P" ["a"; "b"])]) 5 =
    ([], save_snapshot [] 1 (PDict [(KInt 7, expiring_panel "P" ["a"; "b"])]) 5).
Proof.
  split; [reflexivity |].
  exact (C1_first_cycle_baseline (fun l => l) [] 1 _ 5 eq_refl).
Defined.

(** ** Change detection: set differences *)

(** Python equality with a string is string equality. *)
Lemma py_eq_str : forall (x : string) (v : PyVal), py_eq (PStr x) v = true <-> v = PStr x.
Proof.
  intros x v; destruct v; unfold py_eq; simpl; split; intro H; try discriminate.
  - apply String.eqb_eq in H; subst; reflexivity.
  - inversion H; subst; apply String.eqb_refl.
Qed.

(** Occurrences of the string [x] in a list of values. *)
Definition count_str (x : string) (l : list PyVal) : nat :=
  List.length (filter (py_eq (PStr x)) l).

Lemma count_str_app : forall x l1 l2,
  count_str x (l1 ++ l2) = (count_str x l1 + count_str x l2)%nat.
Proof. intros; unfold count_str; rewrite filter_app, length_app; reflexivity. Qed.

Lemma count_str_zero : forall x l,
  existsb (py_eq (PStr x)) l = false -> count_str x l = 0%nat.
Proof.
  intros x l; induction l as [|a l IH]; simpl; [reflexivity |].
  intro H; apply orb_false_iff in H as [H1 H2].
  unfold count_str; simpl; rewrite H1; exact (IH H2).
Qed.

Lemma count_str_pos : forall x l,
  existsb (py_eq (PStr x)) l = true -> (1 <= count_str x l)%nat.
Proof.
  intros x l; induction l as [|a l IH]; simpl; [discriminate |].
  unfold count_str in *; simpl; intro H.
  destruct (py_eq (PStr x) a); simpl; [lia | exact (IH H)].
Qed.

Lemma count_str_perm : forall x l l', Permutation l l' -> count_str x l = count_str x l'.
Proof.
  intros x l l' HP; unfold count_str; induction HP; simpl.
  - reflexivity.
  - destruct (py_eq (PStr x) x0); simpl; lia.
  - destruct (py_eq (PStr x) x0), (py_eq (PStr x) y); simpl; lia.
  - lia.
Qed.

Lemma count_str_set_diff : forall x a b,
  count_str x (set_diff a b) =
    if existsb (py_eq (PStr x)) b then 0%nat else count_str x a.
Proof.
  intros x a b; induction a as [|v a IH]; simpl.
  - destruct (existsb (py_eq (PStr x)) b); reflexivity.
  - unfold count_str in *; simpl.
    destruct (py_eq (PStr x) v) eqn:Hv.
    + apply py_eq_str in Hv; subst v.
      destruct (existsb (py_eq (PStr x)) b); simpl.
      * exact IH.
      * rewrite (proj2 (py_eq_str x (PStr x)) eq_refl); simpl; rewrite IH; reflexivity.
    + destruct (negb (existsb (py_eq v) b)); simpl; [rewrite Hv |]; exact IH.
Qed.

Lemma set_add_single : forall v acc acc',
  (forall x, (count_str x acc <= 1)%nat) -> set_add v acc = Ok acc' ->
  forall x, (count_str x acc' <= 1)%nat.
Proof.
  intros v acc acc' Hacc Hadd x; unfold set_add in Hadd.
  destruct (py_hashable v); [|discriminate].
  injection Hadd as <-.
  destruct (existsb (py_eq v) acc) eqn:Hex; [apply Hacc |].
  rewrite count_str_app.
  unfold count_str at 2; simpl.
  destruct (py_eq (PStr x) v) eqn:Hv; simpl.
  - apply py_eq_str in Hv; subst v.
    rewrite (count_str_zero x acc Hex); lia.
  - specialize (Hacc x); lia.
Qed.

Lemma set_of_list_aux_single : forall l acc s,
  (forall x, (count_str x acc <= 1)%nat) -> set_of_list_aux acc l = Ok s ->
  forall x, (count_str x s <= 1)%nat.
Proof.
  induction l as [|v l IH]; simpl; intros acc s Hacc H.
  - injection H as <-; exact Hacc.
  - destruct (set_add v acc) as [acc'|e] eqn:Hadd; simpl in H; [|discriminate].
    exact (IH acc' s (set_add_single v acc acc' Hacc Hadd) H).
Qed.

(** The members of a set read by [status_set] are pairwise unequal. *)
Lemma status_set_single : forall p f s,
  status_set p f = Ok s -> forall x, (count_str x s <= 1)%nat.
Proof.
  intros p f s H; unfold status_set, py_set, bind in H.
  destruct (py_get p "lists" (PDict [])) as [lists|]; [|discriminate].
  destruct (py_get lists f (PList [])) as [v|]; [|discriminate].
  destruct (py_iter v) as [l|]; [|discriminate].
  apply (set_of_list_aux_single l [] s); [intro; unfold count_str; simpl; lia | exact H].
Qed.

Definition transition_eqb (a b : transition) : bool :=
  match a, b with
  | enteredExpiring, enteredExpiring | enteredExpired, enteredExpired => true
  | _, _ => false
  end.

(** The clients of the events of one transition, in emission order. *)
Definition clients_with (tr : transition) (evs : list change_event) : list PyVal :=
  map ev_client (filter (fun e => transition_eqb (ev_transition e) tr) evs).

(** The events of one panel, spelled out from the sets the code reads. *)
Lemma panel_changes_Ok : forall set_iter ls pid cp evs ce cx pp pe px,
  panel_changes set_iter ls pid cp = Ok evs ->
  status_set cp "expiring" = Ok ce -> status_set cp "expired" = Ok cx ->
  prev_panel_of ls pid = Ok pp ->
  status_set pp "expiring" = Ok pe -> status_set pp "expired" = Ok px ->
  exists name,
    evs = map (fun e => mk_event pid name e enteredExpiring) (set_iter (set_diff ce pe))
       ++ map (fun e => mk_event pid name e enteredExpired) (set_iter (set_diff cx px)).
Proof.
  intros set_iter ls pid cp evs ce cx pp pe px H Hce Hcx Hpp Hpe Hpx.
  unfold panel_changes in H.
  destruct (py_get cp "panel_name" _) as [name|]; simpl in H; [|discriminate].
  rewrite Hce, Hcx, Hpp in H; simpl in H; rewrite Hpe, Hpx in H; simpl in H.
  injection H as <-; exists name; reflexivity.
Qed.

Lemma clients_with_expiring : forall pid name l1 l2,
  clients_with enteredExpiring
    (map (fun e => mk_event pid name e enteredExpiring) l1
     ++ map (fun e => mk_event pid name e enteredExpired) l2) = l1.
Proof.
  intros; unfold clients_with; rewrite filter_app.
  induction l1 as [|a l1 IH]; simpl.
  - induction l2; simpl; [reflexivity | exact IHl2].
  - f_equal; exact IH.
Qed.

Lemma clients_with_expired : forall pid name l1 l2,
  clients_with enteredExpired
    (map (fun e => mk_event pid name e enteredExpiring) l1
     ++ map (fun e => mk_event pid name e enteredExpired) l2) = l2.
Proof.
  intros; unfold clients_with; rewrite filter_app.
  induction l1 as [|a l1 IH]; simpl.
  - induction l2 as [|b l2 IH2]; simpl; [reflexivity | f_equal; exact IH2].
  - exact IH.
Qed.

(** How many times a string id is emitted from a set difference. *)
Lemma count_emitted : forall (set_iter : list PyVal -> list PyVal),
  (forall l, Permutation (set_iter l) l) ->
  forall x cur prev,
  (forall y, (count_str y cur <= 1)%nat) ->
  count_str x (set_iter (set_diff cur prev)) =
    if existsb (py_eq (PStr x)) cur && negb (existsb (py_eq (PStr x)) prev) then 1%nat else 0%nat.
Proof.
  intros set_iter Hperm x cur prev Hcur.
  rewrite (count_str_perm x _ _ (Hperm _)), count_str_set_diff.
  destruct (existsb (py_eq (PStr x)) prev); rewrite ?andb_false_r, ?andb_true_r; [reflexivity |].
  destruct (existsb (py_eq (PStr x)) cur) eqn:Hx.
  - pose proof (count_str_pos x cur Hx); specialize (Hcur x); lia.
  - exact (count_str_zero x cur Hx).
Qed.

(** [C2_set_difference_events] (claim C2): whatever the iteration order of
    Python sets, for every panel of the current snapshot and every client
    id [x], exactly one enteredExpiring event is emitted for [x] when [x]
    is in current.expiring and not in previous.expiring, and none
    otherwise (in particular none for an id that left the list); the same
    holds for enteredExpired with the expired lists. *)
Theorem C2_set_difference_events :
  forall (set_iter : list PyVal -> list PyVal),
  (forall l, Permutation (set_iter l) l) ->
  forall ls pid cp evs ce cx pp pe px,
  panel_changes set_iter ls pid cp = Ok evs ->
  status_set cp "expiring" = Ok ce -> status_set cp "expired" = Ok cx ->
  prev_panel_of ls pid = Ok pp ->
  status_set pp "expiring" = Ok pe -> status_set pp "expired" = Ok px ->
  forall x : string,
    count_str x (clients_with enteredExpiring evs) =
      (if existsb (py_eq (PStr x)) ce && negb (existsb (py_eq (PStr x)) pe) then 1 else 0)%nat /\
    count_str x (clients_with enteredExpired evs) =
      (if existsb (py_eq (PStr x)) cx && negb (existsb (py_eq (PStr x)) px) then 1 else 0)%nat.
Proof.
  intros set_iter Hperm ls pid cp evs ce cx pp pe px H Hce Hcx Hpp Hpe Hpx x.
  destruct (panel_changes_Ok set_iter ls pid cp evs ce cx pp pe px H Hce Hcx Hpp Hpe Hpx)
    as [name ->].
  rewrite clients_with_expiring, clients_with_expired.
  split; apply count_emitted; auto; eapply status_set_single; eassumption.
Qed.

Lemma C2_set_difference_events_witness :
  panel_changes (fun l => l) (PDict [(KStr "7", expiring_panel "P" ["A"; "B"])]) (KInt 7)
    (expiring_panel "P" ["B"; "C"]) =
    Ok [mk_event (KInt 7) (PStr "P") (PStr "C") enteredExpiring] /\
  count_str "C" (clients_with enteredExpiring
    [mk_event (KInt 7) (PStr "P") (PStr "C") enteredExpiring]) = 1%nat /\
  count_str "A" (clients_with enteredExpiring
    [mk_event (KInt 7) (PStr "P") (PStr "C") enteredExpiring]) = 0%nat.
Proof.
  split; [reflexivity |].
  pose proof (C2_set_difference_events (fun l => l) (fun l => Permutation_refl l)
    (PDict [(KStr "7", expiring_panel "P" ["A"; "B"])]) (KInt 7)
    (expiring_panel "P" ["B"; "C"])
    [mk_event (KInt 7) (PStr "P") (PStr "C") enteredExpiring]
    [PStr "B"; PStr "C"] [] (expiring_panel "P" ["A"; "B"]) [PStr "A"; PStr "B"] []
    eq_refl eq_refl eq_refl eq_refl eq_refl eq_refl) as H.
  split; [exact (proj1 (H "C")) | exact (proj1 (H "A"))].
Defined.

(** ** Change detection: order of the events *)

(** [C8_events_not_sorted] (claim C8): with the iteration order a Python
    set of two strings takes under some hash seeds (here the reverse of
    insertion order), the events for newly-expiring ["a"] and ["b"] are
    emitted as ["b"] then ["a"], not in sorted order. *)
Lemma C8_events_not_sorted :
  panel_changes (@rev PyVal) (PDict [(KStr "7", expiring_panel "P" [])]) (KInt 7)
    (expiring_panel "P" ["a"; "b"]) =
    Ok [mk_event (KInt 7) (PStr "P") (PStr "b") enteredExpiring;
        mk_event (KInt 7) (PStr "P") (PStr "a") enteredExpiring] /\
  String.ltb "a" "b" = true.
Proof. split; reflexivity. Qed.

(** [C8_events_grouped_in_set_order] (claim C8, amended): the events of a
    panel are all its enteredExpiring events followed by all its
    enteredExpired events; each group lists the set difference in the
    iteration order of a Python set, i.e. some permutation of it, not
    necessarily sorted. *)
Theorem C8_events_grouped_in_set_order :
  forall (set_iter : list PyVal -> list PyVal),
  (forall l, Permutation (set_iter l) l) ->
  forall ls pid cp evs ce cx pp pe px,
  panel_changes set_iter ls pid cp = Ok evs ->
  status_set cp "expiring" = Ok ce -> status_set cp "expired" = Ok cx ->
  prev_panel_of ls pid = Ok pp ->
  status_set pp "expiring" = Ok pe -> status_set pp "expired" = Ok px ->
  exists name l1 l2,
    evs = map (fun e => mk_event pid name e enteredExpiring) l1
       ++ map (fun e => mk_event pid name e enteredExpired) l2 /\
    Permutation l1 (set_diff ce pe) /\ Permutation l2 (set_diff cx px).
Proof.
  intros set_iter Hperm ls pid cp evs ce cx pp pe px H Hce Hcx Hpp Hpe Hpx.
  destruct (panel_changes_Ok set_iter ls pid cp evs ce cx pp pe px H Hce Hcx Hpp Hpe Hpx)
    as [name ->].
  exists name, (set_iter (set_diff ce pe)), (set_iter (set_diff cx px)).
  split; [reflexivity | split; apply Hperm].
Qed.

Lemma C8_events_grouped_in_set_order_witness :
  panel_changes (@rev PyVal) (PDict [(KStr "7", expiring_panel "P" [])]) (KInt 7)
    (expiring_panel "P" ["a"; "b"]) =
    Ok [mk_event (KInt 7) (PStr "P") (PStr "b") enteredExpiring;
        mk_event (KInt 7) (PStr "P") (PStr "a") enteredExpiring] /\
  exists name l1 l2,
    [mk_event (KInt 7) (PStr "P") (PStr "b") enteredExpiring;
     mk_event (KInt 7) (PStr "P") (PStr "a") enteredExpiring] =
      map (fun e => mk_event (KInt 7) name e enteredExpiring) l1
      ++ map (fun e => mk_event (KInt 7) name e enteredExpired) l2 /\
    Permutation l1 (set_diff [PStr "a"; PStr "b"] []) /\ Permutation l2 (set_diff [] []).
Proof.
  split; [reflexivity |].
  exact (C8_events_grouped_in_set_order (@rev PyVal) (fun l => Permutation_sym (Permutation_rev l))
    (PDict [(KStr "7", expiring_panel "P" [])]) (KInt 7) (expiring_panel "P" ["a"; "b"])
    _ [PStr "a"; PStr "b"] [] (expiring_panel "P" []) [] []
    eq_refl eq_refl eq_refl eq_refl eq_refl eq_refl).
Defined.

(** ** Formatting values *)

Lemma py_format_mono : forall v b b',
  py_format b v = Ok tt -> (b <= b')%nat -> py_format b' v = Ok tt.
Proof.
  induction v as [|bb|z|f|s|l IH|d IH] using PyVal_ind'; intros b b' H Hle; try exact H.
  - destruct b as [|b]; [discriminate H |]; destruct b' as [|b']; [lia |].
    revert H; cbn [py_format].
    induction IH as [|x l Hx _ IHl]; intro H; [reflexivity |].
    cbn in H |- *.
    destruct (py_format b x) as [[]|e] eqn:E; [| discriminate H].
    rewrite (Hx b b' E ltac:(lia)); exact (IHl H).
  - destruct b as [|b]; [discriminate H |]; destruct b' as [|b']; [lia |].
    revert H; cbn [py_format].
    induction IH as [|[k x] d Hx _ IHd]; intro H; [reflexivity |].
    cbn in H |- *.
    destruct (match k with KInt z => int_str z | KStr _ => Ok tt end) as [[]|e];
      [| discriminate H].
    destruct (py_format b x) as [[]|e] eqn:E; [| discriminate H].
    pose proof (Hx b b' E ltac:(lia)) as Hx'; cbn [snd] in Hx'.
    rewrite Hx'; exact (IHd H).
Qed.

Lemma py_format_dict_value : forall b d k v,
  py_format b (PDict d) = Ok tt -> dict_lookup k d = Some v -> py_format b v = Ok tt.
Proof.
  intros [|b] d k v H Hk; [discriminate H |].
  apply (py_format_mono v b (S b)); [| lia].
  revert H Hk; cbn [py_format].
  induction d as [|[k' x] d IH]; intros H Hk; [discriminate Hk |].
  cbn in H, Hk.
  destruct (match k' with KInt z => int_str z | KStr _ => Ok tt end) as [[]|e];
    [| discriminate H].
  destruct (py_format b x) as [[]|e] eqn:E; [| discriminate H].
  destruct (key_eqb k k'); [injection Hk as <-; exact E | exact (IH H Hk)].
Qed.


(** [str(z)] fails exactly past [max_str_digits] digits. *)
Lemma int_fits_spec : forall z, int_fits z = Z.ltb (Z.abs z) (10 ^ max_str_digits).
Proof.
  intro z; unfold int_fits.
  destruct (Z.ltb_spec (Z.log2 (Z.abs z)) 13975) as [Hl|Hl]; [| reflexivity].
  symmetry; apply Z.ltb_lt.
  assert (Hb : 2 ^ 13975 < 10 ^ max_str_digits).
  { unfold max_str_digits.
    replace 13975 with (13 * 1075) by reflexivity.
    replace 4300 with (4 * 1075) by reflexivity.
    rewrite (Z.pow_mul_r 2 13 1075), (Z.pow_mul_r 10 4 1075) by lia.
    apply Z.pow_lt_mono_l; [lia | split; [apply Z.pow_nonneg; lia | reflexivity]]. }
  destruct (Z.eq_dec (Z.abs z) 0) as [E|E]; [rewrite E; apply Z.lt_trans with (2 ^ 13975); [apply Z.pow_pos_nonneg; lia | exact Hb] |].
  apply Z.lt_trans with (2 ^ 13975); [| exact Hb].
  apply Z.lt_le_trans with (2 ^ Z.succ (Z.log2 (Z.abs z))).
  - apply Z.log2_spec; lia.
  - apply Z.pow_le_mono_r; lia.
Qed.

Lemma log_email_dict : forall RB d,
  py_format RB (PDict d) = Ok tt -> log_email RB (PDict d) = Ok tt.
Proof.
  intros RB d H; unfold log_email, py_get, py_get_key; cbn [bind].
  destruct (dict_lookup (KStr "email") d) as [v|] eqn:E; [| reflexivity].
  exact (py_format_dict_value RB d _ v H E).
Qed.

(** ** Status classifier *)

Lemma classify_body_exhausted : forall TS TB wl log client now up down tb e,
  get_int_or0 client "up" = Ok up ->
  get_int_or0 client "down" = Ok down ->
  total_bytes_of wl client = Ok tb ->
  0 < tb -> tb - (up + down) <= 0 ->
  get_expiry_ms client = Ok e -> (e <= 0 \/ exists x, float_of_Z e = Ok x) ->
  log LogStatus = Ok tt ->
  classify_body TS TB wl log client now =
    (_ <- log (LogUsage (up + down) tb (tb - (up + down)));; Ok (false, true)).
Proof.
  intros TS TB wl log client now up down tb e Hup Hdown Htb Hpos Hle He Hfin Hst.
  unfold classify_body; rewrite Hup, Hdown, Htb, He; cbn [bind].
  rewrite (proj2 (Z.ltb_lt 0 tb) Hpos).
  destruct (log (LogUsage (up + down) tb (tb - (up + down)))) as [[]|err]; cbn [bind];
    [| reflexivity].
  rewrite (proj2 (Z.leb_le (tb - (up + down)) 0) Hle).
  destruct (Z.ltb_spec 0 e) as [He0|He0].
  - destruct Hfin as [Hn | [x Hx]]; [lia |].
    unfold int_div_float; rewrite Hx; cbn [bind orb]; rewrite Hst; reflexivity.
  - cbn [bind orb]; rewrite Hst; reflexivity.
Qed.

Definition exhausted_bad_expiry : PyVal :=
  PDict [(KStr "email", PStr "u1"); (KStr "total", PInt 1); (KStr "up", PInt 5);
         (KStr "expiryTime", PStr "soon")].

(** [C3_bad_expiry_not_expired] (claim C3): a client with a positive quota
    of 1 byte and 5 bytes used (remainingBytes = -4) whose expiry field is
    the string ["soon"] is not classified expired: [int("soon")] raises
    [ValueError] and the classifier returns (False, False) (here with
    a recursion budget of 1000 levels left). *)
Lemma C3_bad_expiry_not_expired :
  total_bytes_of true exhausted_bad_expiry = Ok 1 /\
  get_int_or0 exhausted_bad_expiry "up" = Ok 5 /\
  get_int_or0 exhausted_bad_expiry "down" = Ok 0 /\
  calculate_client_status default_seconds_threshold default_bytes_threshold 1000
    exhausted_bad_expiry 1000%float = Ok (false, false).
Proof. repeat split; reflexivity. Qed.

(** [C3_quota_exhausted_expired] (claim C3, amended): for a client whose
    [up], [down] and quota fields convert, with a positive quota and
    remainingBytes <= 0, and which the handler can write out, the
    classifier returns expired (is_expiring = False, is_expired = True)
    whatever the expiry field holds, as long as [int()] accepts it (and,
    when positive, it converts to a float) and the debug line of lines
    58-61 can write the used, total and left byte counts (at most
    [max_str_digits] digits each); when that line raises [ValueError], or
    [int()] rejects the expiry field ([ValueError] or [TypeError]), the
    classifier returns the default (False, False). *)
Theorem C3_quota_exhausted_expired :
  forall (TS TB : Z) (RB : nat) (client : PyVal) (now : float) (up down tb : Z),
  get_int_or0 client "up" = Ok up ->
  get_int_or0 client "down" = Ok down ->
  total_bytes_of true client = Ok tb ->
  0 < tb -> tb - (up + down) <= 0 ->
  py_format RB client = Ok tt ->
  (forall e, get_expiry_ms client = Ok e -> (e <= 0 \/ exists x, float_of_Z e = Ok x) ->
     calculate_client_status TS TB RB client now =
       Ok (false, int_fits (up + down) && int_fits tb && int_fits (tb - (up + down)))) /\
  (forall err, get_expiry_ms client = Err err -> err = ValueError \/ err = TypeError ->
     calculate_client_status TS TB RB client now = Ok (false, false)).
Proof.
  intros TS TB RB client now up down tb Hup Hdown Htb Hpos Hle Hfmt.
  assert (Hd : exists d, client = PDict d).
  { destruct client; try discriminate Hup; eexists; reflexivity. }
  destruct Hd as [d ->].
  pose proof (log_email_dict RB d Hfmt) as Hem.
  unfold calculate_client_status; split.
  - intros e He Hfin.
    rewrite (classify_body_exhausted TS TB true (dp_log RB (PDict d)) (PDict d) now
               up down tb e Hup Hdown Htb Hpos Hle He Hfin Hem).
    cbn [dp_log]; rewrite Hem; cbn [bind]; unfold int_str.
    destruct (int_fits (up + down)), (int_fits tb), (int_fits (tb - (up + down)));
      cbn [bind andb dp_catch]; try reflexivity;
      rewrite Hem, Hfmt; reflexivity.
  - intros err He Herr.
    unfold classify_body; rewrite Hup, Hdown, Htb, He; cbn [bind].
    destruct Herr as [-> | ->]; cbn [dp_catch]; rewrite Hem, Hfmt; reflexivity.
Qed.

Lemma C3_quota_exhausted_expired_witness :
  calculate_client_status default_seconds_threshold default_bytes_threshold 1000
    (PDict [(KStr "email", PStr "u1"); (KStr "total", PInt (1024 ^ 3)); (KStr "up", PInt (1024 ^ 3))])
    1000%float = Ok (false, true).
Proof.
  rewrite (proj1 (C3_quota_exhausted_expired default_seconds_threshold default_bytes_threshold 1000
    (PDict [(KStr "email", PStr "u1"); (KStr "total", PInt (1024 ^ 3)); (KStr "up", PInt (1024 ^ 3))])
    1000%float (1024 ^ 3) 0 (1024 ^ 3) eq_refl eq_refl eq_refl ltac:(lia) ltac:(lia)
    ltac:(vm_compute; reflexivity)) 0 eq_refl ltac:(left; lia)).
  vm_compute; reflexivity.
Defined.

(** [C4_infinite_quota_raises] (claim C4): a client whose [totalGB] is the
    float infinity (JSON [Infinity], or the string ["inf"]) makes
    [calculate_client_status] raise [OverflowError] from
    [int(float(total_gb_val) * (1024**3))]; the handler only catches
    [ValueError], [TypeError] and [KeyError]. *)
Theorem C4_infinite_quota_raises :
  forall (TS TB : Z) (RB : nat) (now : float),
  calculate_client_status TS TB RB (PDict [(KStr "totalGB", PFloat PrimFloat.infinity)]) now
    = Err OverflowError /\
  calculate_client_status TS TB RB (PDict [(KStr "totalGB", PStr "inf")]) now
    = Err OverflowError.
Proof. intros; split; reflexivity. Qed.

Definition limit_only_client : PyVal :=
  PDict [(KStr "email", PStr "u3"); (KStr "limit", PInt 1); (KStr "up", PInt (1024 ^ 3))].

(** [C10_limit_fallback_diverges] (claim C10): for a client with no
    [totalGB] or [total] but [limit = 1] (GiB) fully used,
    [calculate_client_status] returns expired (False, True) while
    [_calc_status_for_client], which lacks the [limit] fallback, returns
    (False, False). *)
Theorem C10_limit_fallback_diverges :
  forall (TS TB : Z) (RB : nat) (now : float),
  calculate_client_status TS TB RB limit_only_client now = Ok (false, true) /\
  _calc_status_for_client TS TB limit_only_client now = Ok (false, false).
Proof. intros; split; reflexivity. Qed.

(** ** Client extractor *)



Definition no_json (_ : string) : res PyVal := Err JSONDecodeError.







Lemma py_format_err : forall b v e,
  py_format b v = Err e -> e = ValueError \/ e = RecursionError.
Proof.
  intros b v; revert b.
  induction v as [|bb|z|f|s|l IH|d IH] using PyVal_ind'; intros b e H; try discriminate H.
  - unfold py_format, int_str in H; destruct (int_fits z); [discriminate H |].
    injection H as <-; left; reflexivity.
  - destruct b as [|b]; [injection H as <-; right; reflexivity |].
    revert H; cbn [py_format].
    induction IH as [|x l Hx _ IHl]; intro H; [discriminate H |].
    cbn in H.
    destruct (py_format b x) as [[]|e'] eqn:E; [exact (IHl H) |].
    injection H as <-; exact (Hx b e' E).
  - destruct b as [|b]; [injection H as <-; right; reflexivity |].
    revert H; cbn [py_format].
    induction IH as [|[k x] d Hx _ IHd]; intro H; [discriminate H |].
    cbn in H.
    destruct k as [z|s]; cbn in H.
    + unfold int_str in H; destruct (int_fits z); cbn in H;
        [| injection H as <-; left; reflexivity].
      destruct (py_format b x) as [[]|e'] eqn:E; [exact (IHd H) |].
      injection H as <-; exact (Hx b e' E).
    + destruct (py_format b x) as [[]|e'] eqn:E; [exact (IHd H) |].
      injection H as <-; exact (Hx b e' E).
Qed.







(** Case analysis on every [match] of a hypothesis, innermost scrutinee
    first. *)
Ltac res_cases H :=
  repeat (try unfold bind in H;
    match type of H with
    | context [match ?x with _ => _ end] =>
        lazymatch x with context [match _ with _ => _ end] => fail | _ => idtac end;
        let E := fresh "E" in destruct x eqn:E
    end).









(** ** Snapshot builder *)

(** [C6_disabled_client_online] (claim C6): a client with
    ["enable": false] whose email is in the panel's online set is added to
    the online list: [build_snapshot] never reads [enable]. *)
Theorem C6_disabled_client_online :
  match build_panel_snapshot default_seconds_threshold default_bytes_threshold no_json "P"
          [PDict [(KStr "id", PInt 1); (KStr "total", PInt 0);
                  (KStr "clientStats",
                     PList [PDict [(KStr "email", PStr "b"); (KStr "enable", PBool false)]])]]
          [PStr "b"] 1000%float with
  | Ok snap => status_set snap "online" = Ok [PStr "b"]
  | Err _ => False
  end.
Proof. vm_compute. reflexivity. Qed.

(** [C7_duplicate_id_in_both_lists] (claim C7): the id ["a"] listed under
    two inbounds, expired in the first (quota 1 byte, 5 used) and expiring
    in the second (100 bytes left), ends up in both the expiring and the
    expired list of the panel snapshot. *)
Theorem C7_duplicate_id_in_both_lists :
  match build_panel_snapshot default_seconds_threshold default_bytes_threshold no_json "P"
          [PDict [(KStr "id", PInt 1); (KStr "total", PInt 0);
                  (KStr "clientStats",
                     PList [PDict [(KStr "email", PStr "a"); (KStr "total", PInt 1);
                                   (KStr "up", PInt 5)]])];
           PDict [(KStr "id", PInt 2); (KStr "total", PInt 0);
                  (KStr "clientStats",
                     PList [PDict [(KStr "email", PStr "a"); (KStr "total", PInt 100)]])]]
          [] 1000%float with
  | Ok snap => status_set snap "expiring" = Ok [PStr "a"] /\
               status_set snap "expired" = Ok [PStr "a"]
  | Err _ => False
  end.
Proof. vm_compute. split; reflexivity. Qed.

(** ** Snapshot store round trip *)

(** The value with every dictionary key written as [json.dumps] writes
    it. *)
Fixpoint stringify_keys (v : PyVal) : PyVal :=
  match v with
  | PList l => PList (map stringify_keys l)
  | PDict d => PDict (map (fun kv => (KStr (key_str (fst kv)), stringify_keys (snd kv))) d)
  | _ => v
  end.

(** No two keys of a list are equal. *)
Fixpoint keys_nodup (ks : list PyKey) : bool :=
  match ks with
  | [] => true
  | k :: ks' => forallb (fun k' => negb (key_eqb k k')) ks' && keys_nodup ks'
  end.

(** The keys of every dictionary in the value stay distinct once written
    as strings (a snapshot's panel ids are distinct ints). *)
Fixpoint str_keys_distinct (v : PyVal) : bool :=
  match v with
  | PList l => forallb str_keys_distinct l
  | PDict d =>
      keys_nodup (map (fun kv => KStr (key_str (fst kv))) d)
      && forallb (fun kv => str_keys_distinct (snd kv)) d
  | _ => true
  end.

(** Every dictionary key of the value is a string. *)
Fixpoint all_keys_str (v : PyVal) : bool :=
  match v with
  | PList l => forallb all_keys_str l
  | PDict d =>
      forallb (fun kv => match fst kv with KStr _ => true | KInt _ => false end
                         && all_keys_str (snd kv)) d
  | _ => true
  end.

Lemma key_eqb_sym : forall k k', key_eqb k k' = key_eqb k' k.
Proof.
  intros [a|a] [b|b]; simpl; try reflexivity; [apply Z.eqb_sym | apply String.eqb_sym].
Qed.

Lemma dict_set_fresh : forall k v acc,
  forallb (fun kv => negb (key_eqb k (fst kv))) acc = true ->
  dict_set k v acc = acc ++ [(k, v)].
Proof.
  intros k v acc; induction acc as [|[k' v'] acc IH]; simpl; [reflexivity |].
  intro H; apply andb_prop in H as [H1 H2].
  destruct (key_eqb k k'); [discriminate | simpl; rewrite IH by exact H2; reflexivity].
Qed.

Lemma dict_of_pairs_nodup_aux : forall l acc,
  keys_nodup (map fst l) = true ->
  forallb (fun kv => forallb (fun kv' => negb (key_eqb (fst kv) (fst kv'))) acc) l = true ->
  fold_left (fun acc kv => dict_set (fst kv) (snd kv) acc) l acc = acc ++ l.
Proof.
  induction l as [|[k v] l IH]; simpl; intros acc Hnd Hfresh; [rewrite app_nil_r; reflexivity |].
  apply andb_prop in Hnd as [Hk Hnd]; apply andb_prop in Hfresh as [Hk' Hfresh].
  rewrite (dict_set_fresh k v acc Hk').
  rewrite (IH (acc ++ [(k, v)]) Hnd), <- app_assoc; [reflexivity |].
  rewrite forallb_forall in Hfresh |- *; intros [k2 v2] Hin.
  specialize (Hfresh _ Hin); simpl in Hfresh |- *.
  rewrite forallb_app, Hfresh; simpl.
  rewrite forallb_forall in Hk.
  assert (Hkk : negb (key_eqb k k2) = true)
    by (apply (Hk k2); apply in_map_iff; exists (k2, v2); split; [reflexivity | exact Hin]).
  rewrite key_eqb_sym, Hkk; reflexivity.
Qed.

Lemma dict_of_pairs_nodup : forall l,
  keys_nodup (map fst l) = true -> dict_of_pairs l = l.
Proof.
  intros l H; unfold dict_of_pairs; rewrite (dict_of_pairs_nodup_aux l [] H); [reflexivity |].
  apply forallb_forall; intros; reflexivity.
Qed.

(** [json.loads(json.dumps(v))] writes every key as a string. *)
Lemma json_roundtrip : forall v,
  str_keys_distinct v = true -> json_loads_doc (json_dumps v) = stringify_keys v.
Proof.
  induction v as [| | | | |l IH|d IH] using PyVal_ind'; intro H; try reflexivity.
  - simpl in *; f_equal; rewrite map_map.
    apply map_ext_in; intros x Hx.
    rewrite Forall_forall in IH; rewrite forallb_forall in H.
    exact (IH x Hx (H x Hx)).
  - simpl in H; apply andb_prop in H as [Hnd Hall].
    simpl; f_equal; rewrite map_map; simpl.
    rewrite (map_ext_in _ (fun kv => (KStr (key_str (fst kv)), stringify_keys (snd kv))) d).
    + apply dict_of_pairs_nodup; rewrite map_map; exact Hnd.
    + intros [k x] Hin; simpl.
      rewrite Forall_forall in IH; rewrite forallb_forall in Hall.
      specialize (IH (k, x) Hin (Hall (k, x) Hin)); simpl in IH; rewrite IH; reflexivity.
Qed.

Lemma stringify_keys_str : forall v, all_keys_str v = true -> stringify_keys v = v.
Proof.
  induction v as [| | | | |l IH|d IH] using PyVal_ind'; intro H; try reflexivity.
  - simpl in *; f_equal; rewrite forallb_forall in H; rewrite Forall_forall in IH.
    rewrite <- map_id; apply map_ext_in; intros x Hx; exact (IH x Hx (H x Hx)).
  - simpl in *; f_equal; rewrite forallb_forall in H; rewrite Forall_forall in IH.
    rewrite <- map_id; apply map_ext_in; intros [k x] Hin.
    specialize (H (k, x) Hin); simpl in H.
    destruct k as [z|s]; [discriminate |]; simpl in *.
    specialize (IH (KStr s, x) Hin H); simpl in IH; rewrite IH; reflexivity.
Qed.

(** [get_last_snapshot] after [save_snapshot] on the same viewer reads back
    what [json.loads] makes of the stored [json.dumps] text. *)
Lemma get_after_save : forall t tid s now_int,
  get_last_snapshot (save_snapshot t tid s now_int) tid = Some (json_loads_doc (json_dumps s)).
Proof.
  intros; unfold get_last_snapshot, save_snapshot, table_replace; simpl.
  rewrite Z.eqb_refl; reflexivity.
Qed.

(** C9 (counterexample): a snapshot keyed by the int panel id 7 is read
    back keyed by the string "7", so the value read is not the value
    stored. *)
Lemma C9_int_panel_id_read_as_string :
  get_last_snapshot (save_snapshot [] 1 (PDict [(KInt 7, PDict [])]) 0) 1
    = Some (PDict [(KStr "7", PDict [])])
  /\ get_last_snapshot (save_snapshot [] 1 (PDict [(KInt 7, PDict [])]) 0) 1
    <> Some (PDict [(KInt 7, PDict [])]).
Proof.
  split; vm_compute; [reflexivity | discriminate].
Qed.

(** C9 (amended): storing [s] for viewer [v] and reading it back gives [s]
    with every dictionary key written as its decimal string (for a
    snapshot whose keys stay distinct once written as strings), and
    exactly [s] when all its keys are strings. *)
Theorem C9_roundtrip_stringified_keys : forall t v s now_int,
  str_keys_distinct s = true ->
  get_last_snapshot (save_snapshot t v s now_int) v = Some (stringify_keys s)
  /\ (all_keys_str s = true -> get_last_snapshot (save_snapshot t v s now_int) v = Some s).
Proof.
  intros t v s now_int H; rewrite get_after_save, (json_roundtrip s H).
  split; [reflexivity | intro Hs; rewrite (stringify_keys_str s Hs); reflexivity].
Qed.

Lemma C9_roundtrip_stringified_keys_witness :
  str_keys_distinct (PDict [(KInt 7, PDict [(KStr "users", PList [PStr "a"])])]) = true
  /\ get_last_snapshot
       (save_snapshot [] 1 (PDict [(KInt 7, PDict [(KStr "users", PList [PStr "a"])])]) 0) 1
     = Some (stringify_keys (PDict [(KInt 7, PDict [(KStr "users", PList [PStr "a"])])])).
Proof.
  split; [vm_compute; reflexivity |].
  apply (C9_roundtrip_stringified_keys [] 1
           (PDict [(KInt 7, PDict [(KStr "users", PList [PStr "a"])])]) 0).
  vm_compute; reflexivity.
Defined.

(* ================================================================== *)
(** * Further properties of the code *)

(** ** The [last_reports] table *)

Lemma table_lookup_filter_other : forall t tid tid',
  tid' <> tid ->
  table_lookup tid' (filter (fun p => negb (Z.eqb (fst p) tid)) t) = table_lookup tid' t.
Proof.
  induction t as [|[id r] t IH]; intros tid tid' Hne; simpl; [reflexivity |].
  destruct (Z.eqb id tid) eqn:E; simpl.
  - apply Z.eqb_eq in E; subst id.
    rewrite (proj2 (Z.eqb_neq tid' tid) Hne); apply IH; exact Hne.
  - destruct (Z.eqb tid' id); [reflexivity | apply IH; exact Hne].
Qed.

Lemma table_lookup_update : forall t tid tid' now_int,
  table_lookup tid' (update_report_time t tid now_int)
  = option_map (fun r => if Z.eqb tid' tid then mk_row (last_json r) now_int else r)
               (table_lookup tid' t).
Proof.
  induction t as [|[id r] t IH]; intros tid tid' now_int; simpl; [reflexivity |].
  destruct (Z.eqb id tid) eqn:E; simpl; destruct (Z.eqb tid' id) eqn:E'; simpl.
  - apply Z.eqb_eq in E, E'; subst; rewrite Z.eqb_refl; reflexivity.
  - apply IH.
  - apply Z.eqb_eq in E'; subst id; rewrite E; reflexivity.
  - apply IH.
Qed.

(** [save_snapshot_other_viewers]: saving the snapshot of one viewer
    ([INSERT OR REPLACE] on its [telegram_id]) leaves the stored snapshot
    and the report time of every other viewer as they were. *)
Theorem save_snapshot_other_viewers : forall t tid tid' snapshot now_int,
  tid' <> tid ->
  get_last_snapshot (save_snapshot t tid snapshot now_int) tid' = get_last_snapshot t tid'
  /\ get_last_report_time (save_snapshot t tid snapshot now_int) tid'
     = get_last_report_time t tid'.
Proof.
  intros t tid tid' snapshot now_int Hne.
  unfold get_last_snapshot, get_last_report_time, save_snapshot, table_replace; simpl.
  rewrite (proj2 (Z.eqb_neq tid' tid) Hne), (table_lookup_filter_other t tid tid' Hne).
  split; reflexivity.
Qed.

Lemma save_snapshot_other_viewers_witness :
  get_last_snapshot (save_snapshot [(2, mk_row (Some (JStr "old")) 5)] 1 (PDict []) 9) 2
    = Some (PStr "old")
  /\ get_last_report_time (save_snapshot [(2, mk_row (Some (JStr "old")) 5)] 1 (PDict []) 9) 2
    = Some 5.
Proof.
  destruct (save_snapshot_other_viewers [(2, mk_row (Some (JStr "old")) 5)] 1 2 (PDict []) 9
              ltac:(lia)) as [H1 H2].
  rewrite H1, H2; split; reflexivity.
Defined.

(** [update_report_time_effect]: [update_report_time] never changes a
    stored snapshot nor another viewer's report time; the viewer's own
    report time becomes [now_int] when it has a row, and a viewer without
    a row still has none ([UPDATE] inserts nothing). *)
Theorem update_report_time_effect : forall t tid now_int,
  (forall tid', get_last_snapshot (update_report_time t tid now_int) tid'
                = get_last_snapshot t tid')
  /\ (forall tid', tid' <> tid ->
        get_last_report_time (update_report_time t tid now_int) tid'
        = get_last_report_time t tid')
  /\ get_last_report_time (update_report_time t tid now_int) tid
     = option_map (fun _ => now_int) (get_last_report_time t tid).
Proof.
  intros t tid now_int; unfold get_last_snapshot, get_last_report_time.
  split; [| split].
  - intro tid'; rewrite table_lookup_update.
    destruct (table_lookup tid' t) as [r|]; simpl; [| reflexivity].
    destruct (Z.eqb tid' tid); reflexivity.
  - intros tid' Hne; rewrite table_lookup_update, (proj2 (Z.eqb_neq tid' tid) Hne).
    destruct (table_lookup tid' t); reflexivity.
  - rewrite table_lookup_update, Z.eqb_refl.
    destruct (table_lookup tid t); reflexivity.
Qed.

Lemma update_report_time_effect_witness :
  get_last_report_time (update_report_time [(1, mk_row None 5); (2, mk_row None 6)] 1 9) 2
    = Some 6
  /\ get_last_report_time (update_report_time [(1, mk_row None 5); (2, mk_row None 6)] 1 9) 1
    = Some 9.
Proof.
  destruct (update_report_time_effect [(1, mk_row None 5); (2, mk_row None 6)] 1 9)
    as [_ [H2 H3]].
  split; [rewrite (H2 2 ltac:(lia)) | rewrite H3]; reflexivity.
Defined.

(** ** [safe_text] *)

Lemma escape_char_cases : forall c,
  (nat_of_ascii c = 38%nat /\ escape_char c = "&amp;")
  \/ (nat_of_ascii c = 60%nat /\ escape_char c = "&lt;")
  \/ (nat_of_ascii c = 62%nat /\ escape_char c = "&gt;")
  \/ (nat_of_ascii c = 34%nat /\ escape_char c = "&quot;")
  \/ (nat_of_ascii c = 39%nat /\ escape_char c = "&#x27;")
  \/ (~ In (nat_of_ascii c) [38; 60; 62; 34; 39]%nat /\ escape_char c = String c EmptyString).
Proof.
  intro c; unfold escape_char.
  destruct (Nat.eqb_spec (nat_of_ascii c) 38); [left; auto |].
  destruct (Nat.eqb_spec (nat_of_ascii c) 60); [right; left; auto |].
  destruct (Nat.eqb_spec (nat_of_ascii c) 62); [right; right; left; auto |].
  destruct (Nat.eqb_spec (nat_of_ascii c) 34); [right; right; right; left; auto |].
  destruct (Nat.eqb_spec (nat_of_ascii c) 39); [right; right; right; right; left; auto |].
  right; right; right; right; right; split; [| reflexivity].
  simpl; intuition.
Qed.

Lemma list_ascii_of_string_app : forall a b,
  list_ascii_of_string (a ++ b) = list_ascii_of_string a ++ list_ascii_of_string b.
Proof. induction a as [|c a IH]; intro b; simpl; [reflexivity | rewrite IH; reflexivity]. Qed.

(** [safe_text_no_markup]: the text [safe_text] returns holds no ["<"],
    [">"], double quote or single quote character, whatever its input. *)
Theorem safe_text_no_markup : forall text c,
  In c (list_ascii_of_string (safe_text text)) ->
  ~ In (nat_of_ascii c) [60; 62; 34; 39]%nat.
Proof.
  intros [s|] c; simpl; [| tauto].
  induction s as [|a s IH]; simpl; [tauto |].
  rewrite list_ascii_of_string_app; intro Hin; apply in_app_or in Hin as [Hin | Hin];
    [| exact (IH Hin)].
  destruct (escape_char_cases a) as [[_ E]|[[_ E]|[[_ E]|[[_ E]|[[_ E]|[Hn E]]]]]];
    rewrite E in Hin; simpl in Hin;
    [ .. | destruct Hin as [<- | []]; intro H; apply Hn; simpl in H |- *; tauto ];
    repeat (destruct Hin as [<- | Hin]; [vm_compute; intuition discriminate |]);
    destruct Hin.
Qed.

Lemma safe_text_no_markup_witness :
  In (ascii_of_nat 38) (list_ascii_of_string (safe_text (Some (String (ascii_of_nat 60) EmptyString)))) /\
  ~ In (nat_of_ascii (ascii_of_nat 38)) [60; 62; 34; 39]%nat.
Proof.
  assert (H : In (ascii_of_nat 38) (list_ascii_of_string (safe_text (Some (String (ascii_of_nat 60) EmptyString))))) by (vm_compute; left; reflexivity).
  split; [exact H | exact (safe_text_no_markup _ _ H)].
Defined.

Lemma ascii_eq_of_nat : forall a b : ascii, nat_of_ascii a = nat_of_ascii b -> a = b.
Proof.
  intros a b H; rewrite <- (ascii_nat_embedding a), <- (ascii_nat_embedding b), H; reflexivity.
Qed.

Lemma escape_char_prefix : forall c1 c2 r1 r2,
  (escape_char c1 ++ r1 = escape_char c2 ++ r2)%string -> c1 = c2 /\ r1 = r2.
Proof.
  intros c1 c2 r1 r2 H.
  destruct (escape_char_cases c1) as [[N1 E1]|[[N1 E1]|[[N1 E1]|[[N1 E1]|[[N1 E1]|[N1 E1]]]]]];
  destruct (escape_char_cases c2) as [[N2 E2]|[[N2 E2]|[[N2 E2]|[[N2 E2]|[[N2 E2]|[N2 E2]]]]]];
  rewrite E1, E2 in H; simpl in H;
  try (injection H as H; subst; split; [apply ascii_eq_of_nat; congruence | reflexivity]);
  try discriminate H;
  try (injection H as <- H; split; [reflexivity | exact H]);
  injection H as H; subst;
  first [ elim N1; rewrite N2; simpl; tauto | elim N2; rewrite N1; simpl; tauto
        | elim N1; simpl; tauto | elim N2; simpl; tauto ].
Qed.

(** [safe_text_injective]: two different strings are never escaped to the
    same text, so the escaped text determines the original. *)
Theorem safe_text_injective : forall a b,
  safe_text (Some a) = safe_text (Some b) -> a = b.
Proof.
  simpl; induction a as [|c a IH]; intros [|c' b] H; simpl in H.
  - reflexivity.
  - destruct (escape_char_cases c') as [[_ E]|[[_ E]|[[_ E]|[[_ E]|[[_ E]|[_ E]]]]]];
      rewrite E in H; discriminate H.
  - destruct (escape_char_cases c) as [[_ E]|[[_ E]|[[_ E]|[[_ E]|[[_ E]|[_ E]]]]]];
      rewrite E in H; discriminate H.
  - apply escape_char_prefix in H as [-> H]; rewrite (IH b H); reflexivity.
Qed.

Lemma safe_text_injective_witness :
  safe_text (Some "<b>") = safe_text (Some "<b>") /\ "<b>" = "<b>".
Proof. split; [reflexivity | apply safe_text_injective; reflexivity]. Defined.

(** ** Status classifiers *)

Lemma classify_body_exclusive : forall TS TB wl log client now ie ix,
  classify_body TS TB wl log client now = Ok (ie, ix) -> ie && ix = false.
Proof.
  intros TS TB wl log client now ie ix H; unfold classify_body, bind in H.
  repeat (match type of H with
          | context [match ?x with _ => _ end] =>
              lazymatch x with
              | context [match _ with _ => _ end] => fail
              | _ => destruct x
              end
          end; try discriminate H);
  injection H as <- <-; rewrite ?andb_false_r; reflexivity.
Qed.

(** [classifiers_never_both]: neither classifier ever reports a client as
    both expiring and expired: [is_expiring] is only computed when
    [is_expired] is false. *)
Theorem classifiers_never_both : forall TS TB RB client now,
  calculate_client_status TS TB RB client now <> Ok (true, true)
  /\ _calc_status_for_client TS TB client now <> Ok (true, true).
Proof.
  intros TS TB RB client now; unfold calculate_client_status, _calc_status_for_client.
  split; intro H; unfold dp_catch, catch_classify in H;
    destruct (classify_body TS TB _ _ client now) as [[ie ix]|[]] eqn:E;
    res_cases H; try discriminate H; injection H as -> ->;
    apply classify_body_exclusive in E; discriminate E.
Qed.

(** [classifiers_reject_non_dict]: a client that is not a dictionary
    makes both classifiers raise [AttributeError] at [client.get]; the
    handler, which catches [ValueError], [TypeError] and [KeyError], lets
    it through. *)
Theorem classifiers_reject_non_dict : forall TS TB RB client now,
  is_dict client = false ->
  calculate_client_status TS TB RB client now = Err AttributeError
  /\ _calc_status_for_client TS TB client now = Err AttributeError.
Proof.
  intros TS TB RB [] now H; try discriminate H; split; reflexivity.
Qed.

Lemma classifiers_reject_non_dict_witness :
  is_dict (PStr "a@b") = false
  /\ calculate_client_status default_seconds_threshold default_bytes_threshold 1000
       (PStr "a@b") 0%float = Err AttributeError.
Proof.
  split; [reflexivity |].
  exact (proj1 (classifiers_reject_non_dict default_seconds_threshold default_bytes_threshold 1000
                  (PStr "a@b") 0%float eq_refl)).
Defined.

Lemma py_get_dict : forall d k dflt,
  py_get (PDict d) k dflt = Ok (match dict_lookup (KStr k) d with Some v => v | None => dflt end).
Proof. reflexivity. Qed.

Lemma total_bytes_of_no_limit : forall d,
  (dict_lookup (KStr "limit") d = None
   \/ exists v, dict_lookup (KStr "limit") d = Some v /\ py_truthy v = false) ->
  total_bytes_of true (PDict d) = total_bytes_of false (PDict d).
Proof.
  intros d Hl; unfold total_bytes_of; rewrite !py_get_dict; cbn [bind].
  destruct (py_float _) as [g|e]; cbn [bind]; [| reflexivity].
  destruct (float_gt_Z g 0); [reflexivity |].
  destruct (py_float (py_or (py_or _ (PInt 0)) (PInt 0))) as [t|e]; cbn [bind]; [| reflexivity].
  destruct (float_gt_Z t 0); [reflexivity |].
  destruct Hl as [-> | [v [-> Hv]]]; [reflexivity |].
  unfold py_or at 1; rewrite Hv; reflexivity.
Qed.

(** Case analysis on every [match] of the goal, innermost scrutinee
    first. *)
Ltac goal_cases :=
  repeat (cbv beta iota zeta; try unfold bind;
    match goal with
    | |- context [match ?x with _ => _ end] =>
        lazymatch x with context [match _ with _ => _ end] => fail | _ => idtac end;
        let E := fresh "E" in destruct x eqn:E
    end).

(** The debug lines only add exceptions: either the body runs as it would
    without them, or one of them raises and its exception ends the body. *)
Lemma classify_body_log_cases : forall TS TB wl log client now,
  classify_body TS TB wl log client now = classify_body TS TB wl no_log client now
  \/ exists l e, log l = Err e /\ classify_body TS TB wl log client now = Err e.
Proof.
  intros TS TB wl log client now; unfold classify_body, no_log.
  goal_cases;
    first [ left; reflexivity
          | right; eexists _, _; split; [eassumption | reflexivity] ].
Qed.

(** When the debug lines that are reached do not raise, the body runs as
    it would without them. *)
Lemma classify_body_log : forall TS TB wl log client now,
  (forall up down tb,
     get_int_or0 client "up" = Ok up -> get_int_or0 client "down" = Ok down ->
     total_bytes_of wl client = Ok tb ->
     log LogStatus = Ok tt /\
     (0 < tb -> log (LogUsage (up + down) tb (tb - (up + down))) = Ok tt
                /\ log (LogQuotaLeft (tb - (up + down))) = Ok tt)) ->
  classify_body TS TB wl log client now = classify_body TS TB wl no_log client now.
Proof.
  intros TS TB wl log client now H; unfold classify_body.
  destruct (get_int_or0 client "up") as [up|e] eqn:Eu; cbn [bind]; [| reflexivity].
  destruct (get_int_or0 client "down") as [down|e] eqn:Ed; cbn [bind]; [| reflexivity].
  destruct (total_bytes_of wl client) as [tb|e] eqn:Et; cbn [bind]; [| reflexivity].
  destruct (H up down tb eq_refl eq_refl eq_refl) as [Hs Hq].
  destruct (get_expiry_ms client) as [ms|e]; cbn [bind]; [| reflexivity].
  rewrite Hs.
  destruct (Z.ltb_spec 0 tb) as [Hp|Hp].
  - destruct (Hq Hp) as [Hu Hl]; rewrite Hu, Hl; reflexivity.
  - reflexivity.
Qed.

(** The debug lines of [calculate_client_status] raise [ValueError] or
    [RecursionError] only. *)
Lemma dp_log_err : forall RB d l e,
  dp_log RB (PDict d) l = Err e -> e = ValueError \/ e = RecursionError.
Proof.
  intros RB d l e H.
  assert (Hi : forall z, int_str z = Err e -> e = ValueError).
  { intros z Hz; unfold int_str in Hz; destruct (int_fits z); [discriminate Hz |].
    injection Hz as <-; reflexivity. }
  assert (Hm : log_email RB (PDict d) = Err e -> e = ValueError \/ e = RecursionError).
  { unfold log_email, py_get, py_get_key; cbn [bind]; exact (py_format_err _ _ _). }
  destruct l as [used total rest| |rest]; cbn [dp_log] in H.
  - destruct (log_email RB (PDict d)) as [[]|e'] eqn:E; cbn [bind] in H;
      [| injection H as <-; exact (Hm eq_refl)].
    destruct (int_str used) as [[]|e'] eqn:E1; cbn [bind] in H;
      [| injection H as <-; left; exact (Hi _ E1)].
    destruct (int_str total) as [[]|e'] eqn:E2; cbn [bind] in H;
      [| injection H as <-; left; exact (Hi _ E2)].
    left; exact (Hi _ H).
  - exact (Hm H).
  - left; exact (Hi _ H).
Qed.

Lemma dp_log_ok : forall RB client up down tb,
  log_email RB client = Ok tt ->
  (0 < tb -> int_fits (up + down) && int_fits tb && int_fits (tb - (up + down)) = true) ->
  dp_log RB client LogStatus = Ok tt /\
  (0 < tb -> dp_log RB client (LogUsage (up + down) tb (tb - (up + down))) = Ok tt
             /\ dp_log RB client (LogQuotaLeft (tb - (up + down))) = Ok tt).
Proof.
  intros RB client up down tb Hm Hf; split; [exact Hm |].
  intro Hp; specialize (Hf Hp).
  apply andb_prop in Hf as [Hf H3]; apply andb_prop in Hf as [H1 H2].
  cbn [dp_log]; unfold int_str; rewrite Hm, H1, H2, H3; split; reflexivity.
Qed.

(** [classifiers_agree_without_limit]: on a dictionary client whose
    [limit] field is missing or falsy the two classifiers return the same
    result unless a debug f-string of [calculate_client_status] raises
    (an email, or a byte count of more than [max_str_digits] digits, that
    cannot be written out): then it returns (False, False) or raises
    [ValueError] or [RecursionError]; when the client can be written out
    and the byte counts can, they return the same result.  The [limit]
    fallback is the only other difference. *)
Theorem classifiers_agree_without_limit : forall TS TB RB d now,
  (dict_lookup (KStr "limit") d = None
   \/ exists v, dict_lookup (KStr "limit") d = Some v /\ py_truthy v = false) ->
  (calculate_client_status TS TB RB (PDict d) now = _calc_status_for_client TS TB (PDict d) now
   \/ calculate_client_status TS TB RB (PDict d) now = Ok (false, false)
   \/ calculate_client_status TS TB RB (PDict d) now = Err ValueError
   \/ calculate_client_status TS TB RB (PDict d) now = Err RecursionError) /\
  (py_format RB (PDict d) = Ok tt ->
   (forall up down tb,
      get_int_or0 (PDict d) "up" = Ok up -> get_int_or0 (PDict d) "down" = Ok down ->
      total_bytes_of false (PDict d) = Ok tb -> 0 < tb ->
      int_fits (up + down) && int_fits tb && int_fits (tb - (up + down)) = true) ->
   calculate_client_status TS TB RB (PDict d) now = _calc_status_for_client TS TB (PDict d) now).
Proof.
  intros TS TB RB d now Hl.
  unfold calculate_client_status, _calc_status_for_client.
  assert (Hnl : classify_body TS TB true no_log (PDict d) now
                = classify_body TS TB false no_log (PDict d) now).
  { unfold classify_body; rewrite (total_bytes_of_no_limit d Hl); reflexivity. }
  assert (Hcatch : forall r, dp_catch RB (PDict d) r = catch_classify r
            \/ dp_catch RB (PDict d) r = Err ValueError
            \/ dp_catch RB (PDict d) r = Err RecursionError).
  { intros [r|[]]; cbn [dp_catch catch_classify]; try (left; reflexivity);
      destruct (log_email RB (PDict d)) as [[]|e] eqn:E; cbn [bind];
      try (destruct (py_format RB (PDict d)) as [[]|e'] eqn:E'; cbn [bind];
           [left; reflexivity | right; destruct (py_format_err _ _ _ E') as [-> | ->]; auto]);
      right; destruct (dp_log_err RB d LogStatus e E) as [-> | ->]; auto. }
  split.
  - destruct (classify_body_log_cases TS TB true (dp_log RB (PDict d)) (PDict d) now)
      as [He | [l [e [Hle He]]]].
    + rewrite He, Hnl.
      destruct (Hcatch (classify_body TS TB false no_log (PDict d) now)) as [H | [H | H]];
        rewrite H; auto.
    + rewrite He; destruct (dp_log_err _ _ _ _ Hle) as [-> | ->].
      * cbn [dp_catch]; right.
        destruct (log_email RB (PDict d)) as [[]|e] eqn:E; cbn [bind].
        -- destruct (py_format RB (PDict d)) as [[]|e'] eqn:E'; cbn [bind]; [left; reflexivity |].
           right; destruct (py_format_err _ _ _ E') as [-> | ->]; auto.
        -- right; destruct (dp_log_err RB d LogStatus e E) as [-> | ->]; auto.
      * cbn [dp_catch]; auto.
  - intros Hfmt Hfits.
    rewrite (classify_body_log TS TB true (dp_log RB (PDict d)) (PDict d) now), Hnl.
    + destruct (classify_body TS TB false no_log (PDict d) now) as [r|[]]; cbn [dp_catch];
        try reflexivity; rewrite (log_email_dict RB d Hfmt), Hfmt; reflexivity.
    + intros up down tb Hup Hdown Htb.
      rewrite (total_bytes_of_no_limit d Hl) in Htb.
      apply dp_log_ok; [exact (log_email_dict RB d Hfmt) | exact (Hfits up down tb Hup Hdown Htb)].
Qed.

Lemma classifiers_agree_without_limit_witness :
  calculate_client_status default_seconds_threshold default_bytes_threshold 1000
    (PDict [(KStr "total", PInt 10); (KStr "up", PInt 10); (KStr "limit", PInt 0)]) 0%float
  = _calc_status_for_client default_seconds_threshold default_bytes_threshold
    (PDict [(KStr "total", PInt 10); (KStr "up", PInt 10); (KStr "limit", PInt 0)]) 0%float.
Proof.
  apply (proj2 (classifiers_agree_without_limit default_seconds_threshold default_bytes_threshold
           1000 [(KStr "total", PInt 10); (KStr "up", PInt 10); (KStr "limit", PInt 0)] 0%float
           ltac:(right; exists (PInt 0); split; reflexivity))).
  - vm_compute; reflexivity.
  - intros up down tb Hup Hdown Htb _.
    vm_compute in Hup, Hdown, Htb.
    injection Hup as <-; injection Hdown as <-; injection Htb as <-; vm_compute; reflexivity.
Defined.

(** [classifiers_no_quota_no_expiry]: a client without any quota field
    ([totalGB], [total], [limit]) and without any expiry field
    ([expiryTime], [expire], [expiry]) is neither expiring nor expired,
    whatever (convertible) usage it reports; for
    [calculate_client_status], whose debug lines write the client's
    email, when that email can be written out. *)
Theorem classifiers_no_quota_no_expiry : forall TS TB RB d now up down,
  Forall (fun k => dict_lookup (KStr k) d = None)
    ["totalGB"; "total"; "limit"; "expiryTime"; "expire"; "expiry"] ->
  get_int_or0 (PDict d) "up" = Ok up ->
  get_int_or0 (PDict d) "down" = Ok down ->
  log_email RB (PDict d) = Ok tt ->
  calculate_client_status TS TB RB (PDict d) now = Ok (false, false)
  /\ _calc_status_for_client TS TB (PDict d) now = Ok (false, false).
Proof.
  intros TS TB RB d now up down Hk Hup Hdown Hm.
  repeat match type of Hk with
         | Forall _ (_ :: _) => let H := fresh "Hnone" in inversion Hk as [|? ? H Hk']; clear Hk;
                                 rename Hk' into Hk
         end.
  assert (Htb : forall wl, total_bytes_of wl (PDict d) = Ok 0).
  { intros []; unfold total_bytes_of; rewrite !py_get_dict, Hnone, Hnone0; try reflexivity.
    rewrite Hnone1; reflexivity. }
  unfold calculate_client_status, _calc_status_for_client.
  rewrite (classify_body_log TS TB true (dp_log RB (PDict d)) (PDict d) now).
  - unfold classify_body; rewrite Hup, Hdown, !Htb; cbn [bind].
    unfold get_expiry_ms; rewrite !py_get_dict, Hnone2, Hnone3, Hnone4.
    split; reflexivity.
  - intros up' down' tb _ _ Htb'; rewrite Htb in Htb'; injection Htb' as <-.
    split; [exact Hm | lia].
Qed.

Lemma classifiers_no_quota_no_expiry_witness :
  calculate_client_status default_seconds_threshold default_bytes_threshold 1000
    (PDict [(KStr "email", PStr "a"); (KStr "up", PInt (10 ^ 15))]) 0%float = Ok (false, false).
Proof.
  apply (classifiers_no_quota_no_expiry default_seconds_threshold default_bytes_threshold 1000
           [(KStr "email", PStr "a"); (KStr "up", PInt (10 ^ 15))] 0%float (10 ^ 15) 0);
  [repeat constructor | reflexivity | reflexivity | reflexivity].
Defined.

Lemma classify_body_time_expired : forall TS TB wl client now up down tb e x,
  get_int_or0 client "up" = Ok up ->
  get_int_or0 client "down" = Ok down ->
  total_bytes_of wl client = Ok tb ->
  get_expiry_ms client = Ok e -> 0 < e ->
  int_div_float e thousand_f = Ok x -> PrimFloat.leb x now = true ->
  classify_body TS TB wl no_log client now = Ok (false, true).
Proof.
  intros TS TB wl client now up down tb e x Hup Hdown Htb He He0 Hx Hle.
  unfold classify_body; rewrite Hup, Hdown, Htb, He; cbn [bind].
  destruct (Z.ltb 0 tb); cbn [bind no_log];
  rewrite (proj2 (Z.ltb_lt 0 e) He0), Hx; cbn [bind]; rewrite Hle, orb_true_r; reflexivity.
Qed.

(** [classifiers_expired_by_time]: a client whose expiry (in ms) is
    positive and, divided by 1000.0, is at most [now] is expired (and not
    expiring) for both classifiers, whatever its quota and usage, once
    its fields convert; for [calculate_client_status], when its debug
    lines can write the client's email and, for a positive quota, the
    used, total and left byte counts. *)
Theorem classifiers_expired_by_time : forall TS TB RB client now up down e x,
  get_int_or0 client "up" = Ok up ->
  get_int_or0 client "down" = Ok down ->
  get_expiry_ms client = Ok e -> 0 < e ->
  int_div_float e thousand_f = Ok x -> PrimFloat.leb x now = true ->
  (forall tb, total_bytes_of true client = Ok tb ->
     log_email RB client = Ok tt ->
     (0 < tb -> int_fits (up + down) && int_fits tb && int_fits (tb - (up + down)) = true) ->
     calculate_client_status TS TB RB client now = Ok (false, true))
  /\ (forall tb, total_bytes_of false client = Ok tb ->
     _calc_status_for_client TS TB client now = Ok (false, true)).
Proof.
  intros TS TB RB client now up down e x Hup Hdown He He0 Hx Hle; split.
  - intros tb Htb Hm Hf; unfold calculate_client_status.
    rewrite (classify_body_log TS TB true (dp_log RB client) client now).
    + rewrite (classify_body_time_expired TS TB _ client now up down tb e x
                 Hup Hdown Htb He He0 Hx Hle); reflexivity.
    + intros up' down' tb' Hup' Hdown' Htb'.
      rewrite Hup in Hup'; rewrite Hdown in Hdown'; rewrite Htb in Htb'.
      injection Hup' as <-; injection Hdown' as <-; injection Htb' as <-.
      exact (dp_log_ok RB client up down tb Hm Hf).
  - intros tb Htb; unfold _calc_status_for_client.
    rewrite (classify_body_time_expired TS TB _ client now up down tb e x
               Hup Hdown Htb He He0 Hx Hle); reflexivity.
Qed.

Definition past_expiry_client : PyVal :=
  PDict [(KStr "email", PStr "b"); (KStr "totalGB", PInt 50); (KStr "expiryTime", PInt 1000)].

Lemma classifiers_expired_by_time_witness :
  calculate_client_status default_seconds_threshold default_bytes_threshold 1000
    past_expiry_client 5%float = Ok (false, true).
Proof.
  apply (proj1 (classifiers_expired_by_time default_seconds_threshold default_bytes_threshold
           1000 past_expiry_client 5%float 0 0 1000 1%float eq_refl eq_refl eq_refl ltac:(lia)
           ltac:(vm_compute; reflexivity) ltac:(vm_compute; reflexivity))
           (50 * 1024 ^ 3)).
  - vm_compute; reflexivity.
  - vm_compute; reflexivity.
  - intros _; vm_compute; reflexivity.
Defined.

Lemma classify_body_time_expiring : forall TS TB wl client now up down tb e x,
  get_int_or0 client "up" = Ok up ->
  get_int_or0 client "down" = Ok down ->
  total_bytes_of wl client = Ok tb ->
  ~ (0 < tb /\ tb - (up + down) <= 0) ->
  get_expiry_ms client = Ok e -> 0 < e ->
  int_div_float e thousand_f = Ok x -> PrimFloat.leb x now = false ->
  float_gt_Z (PrimFloat.sub x now) 0 = true ->
  float_le_Z (PrimFloat.sub x now) TS = true ->
  classify_body TS TB wl no_log client now = Ok (true, false).
Proof.
  intros TS TB wl client now up down tb e x Hup Hdown Htb Hq He He0 Hx Hle Hgt Hts.
  unfold classify_body; rewrite Hup, Hdown, Htb, He; cbn [bind].
  rewrite (proj2 (Z.ltb_lt 0 e) He0), Hx; cbn [bind].
  destruct (Z.ltb_spec 0 tb) as [Hp|Hp]; cbn [bind no_log].
  - rewrite (proj2 (Z.leb_gt (tb - (up + down)) 0) ltac:(lia)); cbn [orb].
    rewrite Hle; cbn [bind orb]; rewrite Hgt, Hts; cbn [andb orb].
    destruct (_ && _); reflexivity.
  - cbn [orb]; rewrite Hle; cbn [bind orb]; rewrite Hgt, Hts; reflexivity.
Qed.

(** [classifiers_expiring_by_time]: a client whose quota is not used up,
    whose expiry time [x = expiry_ms / 1000.0] is still ahead of [now],
    with [0 < x - now <= EXPIRING_SECONDS_THRESHOLD], is expiring (and not
    expired) for both classifiers, once its fields convert; for
    [calculate_client_status], when its debug lines can write the
    client's email and, for a positive quota, the used, total and left
    byte counts. *)
Theorem classifiers_expiring_by_time : forall TS TB RB client now up down e x,
  get_int_or0 client "up" = Ok up ->
  get_int_or0 client "down" = Ok down ->
  get_expiry_ms client = Ok e -> 0 < e ->
  int_div_float e thousand_f = Ok x -> PrimFloat.leb x now = false ->
  float_gt_Z (PrimFloat.sub x now) 0 = true ->
  float_le_Z (PrimFloat.sub x now) TS = true ->
  (forall tb, total_bytes_of true client = Ok tb -> ~ (0 < tb /\ tb - (up + down) <= 0) ->
     log_email RB client = Ok tt ->
     (0 < tb -> int_fits (up + down) && int_fits tb && int_fits (tb - (up + down)) = true) ->
     calculate_client_status TS TB RB client now = Ok (true, false))
  /\ (forall tb, total_bytes_of false client = Ok tb -> ~ (0 < tb /\ tb - (up + down) <= 0) ->
     _calc_status_for_client TS TB client now = Ok (true, false)).
Proof.
  intros TS TB RB client now up down e x Hup Hdown He He0 Hx Hle Hgt Hts; split.
  - intros tb Htb Hq Hm Hf; unfold calculate_client_status.
    rewrite (classify_body_log TS TB true (dp_log RB client) client now).
    + rewrite (classify_body_time_expiring TS TB _ client now up down tb e x
                 Hup Hdown Htb Hq He He0 Hx Hle Hgt Hts); reflexivity.
    + intros up' down' tb' Hup' Hdown' Htb'.
      rewrite Hup in Hup'; rewrite Hdown in Hdown'; rewrite Htb in Htb'.
      injection Hup' as <-; injection Hdown' as <-; injection Htb' as <-.
      exact (dp_log_ok RB client up down tb Hm Hf).
  - intros tb Htb Hq; unfold _calc_status_for_client.
    rewrite (classify_body_time_expiring TS TB _ client now up down tb e x
               Hup Hdown Htb Hq He He0 Hx Hle Hgt Hts); reflexivity.
Qed.

Definition soon_expiring_client : PyVal :=
  PDict [(KStr "email", PStr "c"); (KStr "expiryTime", PInt 50000000)].

Lemma classifiers_expiring_by_time_witness :
  _calc_status_for_client default_seconds_threshold default_bytes_threshold
    soon_expiring_client 40000%float = Ok (true, false).
Proof.
  apply (proj2 (classifiers_expiring_by_time default_seconds_threshold default_bytes_threshold
           1000 soon_expiring_client 40000%float 0 0 50000000 50000%float eq_refl eq_refl eq_refl
           ltac:(lia) ltac:(vm_compute; reflexivity) ltac:(vm_compute; reflexivity)
           ltac:(vm_compute; reflexivity) ltac:(vm_compute; reflexivity)) 0 eq_refl).
  lia.
Defined.

(** ** Client extractors *)

(** [extractors_non_iterable_clients]: when an inbound's [clientStats] is
    not a list and its [settings] (a dictionary, or a string decoding to
    one) hold a [clients] value that cannot be iterated ([None], a bool,
    an int or a float), [_extract_clients_from_inbound] raises
    [TypeError] from its final comprehension, outside its [try], while
    [extract_clients_from_inbound] returns no client. *)
Theorem extractors_non_iterable_clients : forall json_loads RB d sv sd v,
  (forall l, dict_lookup (KStr "clientStats") d <> Some (PList l)) ->
  dict_lookup (KStr "settings") d = Some sv ->
  match sv with PStr s => json_loads s | _ => Ok sv end = Ok (PDict sd) ->
  dict_lookup (KStr "clients") sd = Some v ->
  py_iter v = Err TypeError ->
  _extract_clients_from_inbound json_loads (PDict d) = Err TypeError
  /\ extract_clients_from_inbound json_loads RB (PDict d) = Ok [].
Proof.
  intros json_loads RB d sv sd v Hcs Hs Hdec Hv Hit.
  unfold _extract_clients_from_inbound, extract_clients_from_inbound,
         sb_select_clients, dp_select_clients, sb_settings_clients, dp_settings_clients.
  assert (Hsel : forall A (f : list PyVal -> A) (g : A),
            match dict_lookup (KStr "clientStats") d with Some (PList l) => f l | _ => g end = g).
  { intros A f g; destruct (dict_lookup (KStr "clientStats") d) as [[]|] eqn:E; try reflexivity.
    exfalso; exact (Hcs _ eq_refl). }
  rewrite !Hsel, Hs, Hdec; cbn [bind]; rewrite Hv.
  split; [rewrite Hit; reflexivity |].
  destruct v; try discriminate Hit; reflexivity.
Qed.

Lemma extractors_non_iterable_clients_witness :
  _extract_clients_from_inbound no_json
    (PDict [(KStr "settings", PDict [(KStr "clients", PInt 5)])]) = Err TypeError
  /\ extract_clients_from_inbound no_json 1000
    (PDict [(KStr "settings", PDict [(KStr "clients", PInt 5)])]) = Ok [].
Proof.
  apply (extractors_non_iterable_clients no_json 1000
           [(KStr "settings", PDict [(KStr "clients", PInt 5)])]
           (PDict [(KStr "clients", PInt 5)]) [(KStr "clients", PInt 5)] (PInt 5));
  try reflexivity.
  intros l; discriminate.
Defined.

(** ** Snapshot builder *)

Lemma insert_by_perm : forall (A : Type) (le : A -> A -> bool) x l,
  Permutation (insert_by le x l) (x :: l).
Proof.
  intros A le x l; induction l as [|y l IH]; simpl; [apply Permutation_refl |].
  destruct (le x y); [apply Permutation_refl |].
  eapply perm_trans; [apply perm_skip, IH | apply perm_swap].
Qed.

Lemma sort_by_perm : forall (A : Type) (le : A -> A -> bool) l, Permutation (sort_by le l) l.
Proof.
  intros A le l; induction l as [|x l IH]; simpl; [apply Permutation_refl |].
  eapply perm_trans; [apply insert_by_perm | apply perm_skip, IH].
Qed.

Lemma all_strings_map : forall l ss, all_strings l = Some ss -> l = map PStr ss.
Proof.
  induction l as [|v l IH]; intros ss H; simpl in H.
  - injection H as <-; reflexivity.
  - destruct v; try discriminate H.
    destruct (all_strings l) as [r|]; [| discriminate H].
    injection H as <-; simpl; rewrite (IH r eq_refl); reflexivity.
Qed.

Lemma py_sorted_perm : forall l l', py_sorted l = Ok l' -> Permutation l' l.
Proof.
  intros l l' H; unfold py_sorted in H.
  destruct l as [|a [|b r]]; [injection H as <-; constructor | injection H as <-; constructor; constructor |].
  destruct (all_strings (a :: b :: r)) as [ss|] eqn:E.
  - injection H as <-; rewrite (all_strings_map _ _ E).
    apply Permutation_map, sort_by_perm.
  - destruct (all_numbers (a :: b :: r)); [| discriminate H].
    injection H as <-; exact (sort_by_perm _ num_le (a :: b :: r)).
Qed.

(** A field of one section ([counts], [usage], [lists]) of a panel's
    snapshot entry. *)
Definition snap_field (snap : PyVal) (section field : string) : option PyVal :=
  match snap with
  | PDict d =>
      match dict_lookup (KStr section) d with
      | Some (PDict s) => dict_lookup (KStr field) s
      | _ => None
      end
  | _ => None
  end.

Lemma build_panel_snapshot_fields : forall TS TB json_loads name ibs onl now snap,
  build_panel_snapshot TS TB json_loads name ibs onl now = Ok snap ->
  exists acc su so sg sx,
    build_panel_sets TS TB json_loads ibs onl now = Ok acc
    /\ py_sorted (all_users acc) = Ok su /\ py_sorted (online_users acc) = Ok so
    /\ py_sorted (expiring_users acc) = Ok sg /\ py_sorted (expired_users acc) = Ok sx
    /\ snap_field snap "lists" "users" = Some (PList su)
    /\ snap_field snap "lists" "online" = Some (PList so)
    /\ snap_field snap "lists" "expiring" = Some (PList sg)
    /\ snap_field snap "lists" "expired" = Some (PList sx)
    /\ snap_field snap "counts" "users" = Some (len (all_users acc))
    /\ snap_field snap "counts" "online" = Some (len (online_users acc))
    /\ snap_field snap "counts" "expiring" = Some (len (expiring_users acc))
    /\ snap_field snap "counts" "expired" = Some (len (expired_users acc))
    /\ snap_field snap "usage" "used" = Some (PInt (total_used acc))
    /\ snap_field snap "usage" "total" = Some (PInt (total_capacity acc))
    /\ snap_field snap "usage" "unlimited" = Some (PBool (has_unlimited acc)).
Proof.
  intros TS TB json_loads name ibs onl now snap H.
  unfold build_panel_snapshot, build_panel_sets in *.
  destruct (set_of_list_aux [] onl) as [oc|e]; cbn [bind] in H |- *; [| discriminate H].
  destruct (fold_res _ empty_acc ibs) as [acc|e]; cbn [bind] in H; [| discriminate H].
  destruct (log_gib (total_used acc)) as [[]|e]; cbn [bind] in H; [| discriminate H].
  destruct (log_gib (total_capacity acc)) as [[]|e]; cbn [bind] in H; [| discriminate H].
  destruct (py_sorted (all_users acc)) as [su|e] eqn:Hsu; cbn [bind] in H; [| discriminate H].
  destruct (py_sorted (online_users acc)) as [so|e] eqn:Hso; cbn [bind] in H; [| discriminate H].
  destruct (py_sorted (expiring_users acc)) as [sg|e] eqn:Hsg; cbn [bind] in H; [| discriminate H].
  destruct (py_sorted (expired_users acc)) as [sx|e] eqn:Hsx; cbn [bind] in H; [| discriminate H].
  injection H as <-.
  exists acc, su, so, sg, sx; repeat split; first [reflexivity | assumption].
Qed.

(** [panel_counts_match_lists]: in every panel entry [build_snapshot]
    produces, each of the four counts ([users], [online], [expiring],
    [expired]) is the length of the list of the same name. *)
Theorem panel_counts_match_lists : forall TS TB json_loads name ibs onl now snap,
  build_panel_snapshot TS TB json_loads name ibs onl now = Ok snap ->
  forall f, In f ["users"; "online"; "expiring"; "expired"] ->
  exists l, snap_field snap "lists" f = Some (PList l)
         /\ snap_field snap "counts" f = Some (PInt (Z.of_nat (List.length l))).
Proof.
  intros TS TB json_loads name ibs onl now snap H f Hf.
  destruct (build_panel_snapshot_fields _ _ _ _ _ _ _ _ H)
    as (acc & su & so & sg & sx & _ & Hsu & Hso & Hsg & Hsx & Lu & Lo & Lg & Lx & Cu & Co & Cg & Cx & _).
  simpl in Hf; destruct Hf as [<- | [<- | [<- | [<- | []]]]];
  [ exists su; rewrite Lu, Cu, (Permutation_length (py_sorted_perm _ _ Hsu))
  | exists so; rewrite Lo, Co, (Permutation_length (py_sorted_perm _ _ Hso))
  | exists sg; rewrite Lg, Cg, (Permutation_length (py_sorted_perm _ _ Hsg))
  | exists sx; rewrite Lx, Cx, (Permutation_length (py_sorted_perm _ _ Hsx)) ];
  split; reflexivity.
Qed.

Definition two_client_inbound : PyVal :=
  PDict [(KStr "up", PInt 5); (KStr "total", PInt 100);
         (KStr "clients", PList [PDict [(KStr "email", PStr "b"); (KStr "total", PInt 10); (KStr "up", PInt 10)];
                                 PDict [(KStr "email", PStr "a")]])].

Lemma panel_counts_match_lists_witness :
  exists l, snap_field
      (PDict [(KStr "panel_name", PStr "P");
              (KStr "counts", PDict [(KStr "users", PInt 2); (KStr "online", PInt 1);
                                     (KStr "expiring", PInt 0); (KStr "expired", PInt 1)]);
              (KStr "usage", PDict [(KStr "used", PInt 5); (KStr "total", PInt 100);
                                    (KStr "remaining", PInt 95); (KStr "unlimited", PBool false)]);
              (KStr "lists", PDict [(KStr "users", PList [PStr "a"; PStr "b"]);
                                    (KStr "online", PList [PStr "a"]);
                                    (KStr "expiring", PList []);
                                    (KStr "expired", PList [PStr "b"])])])
      "lists" "users" = Some (PList l)
    /\ Z.of_nat (List.length l) = 2.
Proof.
  destruct (panel_counts_match_lists default_seconds_threshold default_bytes_threshold
              no_json "P" [two_client_inbound] [PStr "a"] 0%float _
              ltac:(vm_compute; reflexivity) "users" ltac:(simpl; tauto)) as [l [Hl Hc]].
  exists l; split; [exact Hl |].
  vm_compute in Hl; injection Hl as <-; reflexivity.
Defined.

Lemma process_client_totals : forall TS TB onl now a c a',
  process_client TS TB onl now a c = Ok a' ->
  total_used a' = total_used a /\ total_capacity a' = total_capacity a
  /\ has_unlimited a' = has_unlimited a.
Proof.
  intros TS TB onl now a c a' H; unfold process_client in H.
  destruct (py_get c "email" (PStr "")) as [email|e]; cbn [bind] in H; [| discriminate H].
  destruct (negb (py_truthy email)); [injection H as <-; auto |].
  destruct (set_add email (all_users a)) as [au|e]; cbn [bind] in H; [| discriminate H].
  destruct (set_mem email onl) as [b|e]; cbn [bind] in H; [| discriminate H].
  destruct (if b then _ else _) as [ou|e]; cbn [bind] in H; [| discriminate H].
  destruct (_calc_status_for_client TS TB c now) as [[ie ix]|e]; cbn [bind] in H; [| discriminate H].
  destruct ix; [| destruct ie].
  - destruct (set_add email (expired_users a)); cbn [bind] in H; [| discriminate H].
    injection H as <-; auto.
  - destruct (set_add email (expiring_users a)); cbn [bind] in H; [| discriminate H].
    injection H as <-; auto.
  - injection H as <-; auto.
Qed.

Lemma fold_clients_totals : forall TS TB onl now cs a a',
  fold_res (process_client TS TB onl now) a cs = Ok a' ->
  total_used a' = total_used a /\ total_capacity a' = total_capacity a
  /\ has_unlimited a' = has_unlimited a.
Proof.
  intros TS TB onl now cs; induction cs as [|c cs IH]; intros a a' H; simpl in H.
  - injection H as <-; auto.
  - destruct (process_client TS TB onl now a c) as [a1|e] eqn:E; cbn [bind] in H; [| discriminate H].
    destruct (IH a1 a' H) as (H1 & H2 & H3).
    destruct (process_client_totals _ _ _ _ _ _ _ E) as (E1 & E2 & E3).
    rewrite H1, H2, H3, E1, E2, E3; auto.
Qed.

(** [int(inbound.get(k, 0) or 0)] once it converts. *)
Definition int_or0 (inbound : PyVal) (k : string) : Z :=
  match get_int_or0 inbound k with Ok z => z | Err _ => 0 end.

Lemma process_inbound_totals : forall TS TB json_loads onl now a ib a',
  process_inbound TS TB json_loads onl now a ib = Ok a' ->
  total_used a' = total_used a + (int_or0 ib "up" + int_or0 ib "down")
  /\ total_capacity a' = total_capacity a + int_or0 ib "total"
  /\ has_unlimited a' = has_unlimited a || Z.eqb (int_or0 ib "total") 0.
Proof.
  intros TS TB json_loads onl now a ib a' H; unfold process_inbound in H; unfold int_or0.
  destruct (get_int_or0 ib "up") as [u|e]; cbn [bind] in H; [| discriminate H].
  destruct (get_int_or0 ib "down") as [dn|e]; cbn [bind] in H; [| discriminate H].
  destruct (get_int_or0 ib "total") as [t|e]; cbn [bind] in H; [| discriminate H].
  destruct (_extract_clients_from_inbound json_loads ib) as [cs|e]; cbn [bind] in H;
    [| discriminate H].
  apply fold_clients_totals in H as (H1 & H2 & H3).
  destruct (Z.eqb_spec t 0) as [-> | Ht]; simpl in H1, H2, H3;
    rewrite H1, H2, H3; [rewrite orb_true_r | rewrite orb_false_r]; repeat split; lia.
Qed.

(** [panel_usage_totals]: a panel's [usage.used] is the sum of [up + down]
    over the panel's (scope-filtered) inbounds, [usage.total] the sum of
    their [total] fields, and [usage.unlimited] holds exactly when one of
    them has a [total] of 0 (or none); the clients' own figures play no
    part. *)
Theorem panel_usage_totals : forall TS TB json_loads name ibs onl now snap,
  build_panel_snapshot TS TB json_loads name ibs onl now = Ok snap ->
  snap_field snap "usage" "used"
    = Some (PInt (fold_right Z.add 0 (map (fun ib => int_or0 ib "up" + int_or0 ib "down") ibs)))
  /\ snap_field snap "usage" "total"
    = Some (PInt (fold_right Z.add 0 (map (fun ib => int_or0 ib "total") ibs)))
  /\ snap_field snap "usage" "unlimited"
    = Some (PBool (existsb (fun ib => Z.eqb (int_or0 ib "total") 0) ibs)).
Proof.
  intros TS TB json_loads name ibs onl now snap H.
  destruct (build_panel_snapshot_fields _ _ _ _ _ _ _ _ H)
    as (acc & _ & _ & _ & _ & Hacc & _ & _ & _ & _ & _ & _ & _ & _ & _ & _ & _ & _ & U1 & U2 & U3).
  rewrite U1, U2, U3.
  unfold build_panel_sets in Hacc.
  destruct (set_of_list_aux [] onl) as [oc|e]; cbn [bind] in Hacc; [| discriminate Hacc].
  assert (Hgen : forall ibs a a',
            fold_res (process_inbound TS TB json_loads oc now) a ibs = Ok a' ->
            total_used a' = total_used a
              + fold_right Z.add 0 (map (fun ib => int_or0 ib "up" + int_or0 ib "down") ibs)
            /\ total_capacity a' = total_capacity a
              + fold_right Z.add 0 (map (fun ib => int_or0 ib "total") ibs)
            /\ has_unlimited a' = has_unlimited a
              || existsb (fun ib => Z.eqb (int_or0 ib "total") 0) ibs).
  { induction ibs0 as [|ib ibs0 IH]; intros a a' Hf; simpl in Hf.
    - injection Hf as <-; simpl; rewrite orb_false_r; repeat split; lia.
    - destruct (process_inbound TS TB json_loads oc now a ib) as [a1|e] eqn:E; cbn [bind] in Hf;
        [| discriminate Hf].
      destruct (IH a1 a' Hf) as (H1 & H2 & H3).
      destruct (process_inbound_totals _ _ _ _ _ _ _ _ E) as (E1 & E2 & E3).
      simpl; rewrite H1, H2, H3, E1, E2, E3, orb_assoc; repeat split; lia. }
  destruct (Hgen ibs empty_acc acc Hacc) as (G1 & G2 & G3); simpl in G1, G2, G3.
  rewrite G1, G2, G3; repeat split.
Qed.

Lemma panel_usage_totals_witness :
  snap_field
    (PDict [(KStr "panel_name", PStr "P");
            (KStr "counts", PDict [(KStr "users", PInt 2); (KStr "online", PInt 1);
                                   (KStr "expiring", PInt 0); (KStr "expired", PInt 1)]);
            (KStr "usage", PDict [(KStr "used", PInt 5); (KStr "total", PInt 100);
                                  (KStr "remaining", PInt 95); (KStr "unlimited", PBool false)]);
            (KStr "lists", PDict [(KStr "users", PList [PStr "a"; PStr "b"]);
                                  (KStr "online", PList [PStr "a"]);
                                  (KStr "expiring", PList []);
                                  (KStr "expired", PList [PStr "b"])])])
    "usage" "used" = Some (PInt (int_or0 two_client_inbound "up" + int_or0 two_client_inbound "down" + 0)).
Proof.
  exact (proj1 (panel_usage_totals default_seconds_threshold default_bytes_threshold
                  no_json "P" [two_client_inbound] [PStr "a"] 0%float _
                  ltac:(vm_compute; reflexivity))).
Defined.

(** Every member of a list is a member of [s], or equal ([==]) to one. *)
Definition covered_by (x : PyVal) (s : list PyVal) : Prop :=
  exists y, In y s /\ (x = y \/ py_eq x y = true).

Definition acc_inv (a : panel_acc) : Prop :=
  forall x, In x (online_users a) \/ In x (expiring_users a) \/ In x (expired_users a) ->
  covered_by x (all_users a).

Lemma set_add_incl : forall v s s', set_add v s = Ok s' -> forall y, In y s -> In y s'.
Proof.
  intros v s s' H y Hy; unfold set_add in H.
  destruct (py_hashable v); [| discriminate H]; injection H as <-.
  destruct (existsb (py_eq v) s); [exact Hy | apply in_or_app; left; exact Hy].
Qed.

Lemma set_add_members : forall v s s', set_add v s = Ok s' -> forall y, In y s' -> In y s \/ y = v.
Proof.
  intros v s s' H y Hy; unfold set_add in H.
  destruct (py_hashable v); [| discriminate H]; injection H as <-.
  destruct (existsb (py_eq v) s); [left; exact Hy |].
  apply in_app_or in Hy as [Hy | [<- | []]]; [left; exact Hy | right; reflexivity].
Qed.

Lemma set_add_covers : forall v s s', set_add v s = Ok s' -> covered_by v s'.
Proof.
  intros v s s' H; unfold set_add in H.
  destruct (py_hashable v); [| discriminate H]; injection H as <-.
  destruct (existsb (py_eq v) s) eqn:E.
  - apply existsb_exists in E as [y [Hy Heq]]; exists y; auto.
  - exists v; split; [apply in_or_app; right; left; reflexivity | left; reflexivity].
Qed.

Lemma acc_inv_step : forall a email au ou eg ex tu tc hu,
  acc_inv a ->
  (forall y, In y (all_users a) -> In y au) -> covered_by email au ->
  (forall y, In y ou -> In y (online_users a) \/ y = email) ->
  (forall y, In y eg -> In y (expiring_users a) \/ y = email) ->
  (forall y, In y ex -> In y (expired_users a) \/ y = email) ->
  acc_inv (mk_acc au ou eg ex tu tc hu).
Proof.
  intros a email au ou eg ex tu tc hu Hinv Hall Hcov Hou Heg Hex x Hx; simpl in Hx |- *.
  assert (Hold : In x (online_users a) \/ In x (expiring_users a) \/ In x (expired_users a)
                 \/ x = email).
  { destruct Hx as [Hx | [Hx | Hx]];
    [destruct (Hou x Hx) | destruct (Heg x Hx) | destruct (Hex x Hx)]; tauto. }
  destruct Hold as [Hold | [Hold | [Hold | ->]]]; [| | | exact Hcov];
  destruct (Hinv x ltac:(tauto)) as [y [Hy Heq]]; exists y; split; auto.
Qed.

Lemma process_client_inv : forall TS TB onl now a c a',
  acc_inv a -> process_client TS TB onl now a c = Ok a' -> acc_inv a'.
Proof.
  intros TS TB onl now a c a' Hinv H; unfold process_client in H.
  destruct (py_get c "email" (PStr "")) as [email|e]; cbn [bind] in H; [| discriminate H].
  destruct (negb (py_truthy email)); [injection H as <-; exact Hinv |].
  destruct (set_add email (all_users a)) as [au|e] eqn:Hau; cbn [bind] in H; [| discriminate H].
  destruct (set_mem email onl) as [b|e]; cbn [bind] in H; [| discriminate H].
  assert (Hou : forall ou, (if b then set_add email (online_users a) else Ok (online_users a))
                           = Ok ou -> forall y, In y ou -> In y (online_users a) \/ y = email).
  { intros ou E; destruct b; [exact (set_add_members _ _ _ E) |].
    injection E as <-; intros y Hy; left; exact Hy. }
  destruct (if b then _ else _) as [ou|e] eqn:Eou; cbn [bind] in H; [| discriminate H].
  specialize (Hou ou eq_refl).
  pose proof (set_add_incl _ _ _ Hau) as Hincl.
  pose proof (set_add_covers _ _ _ Hau) as Hcov.
  destruct (_calc_status_for_client TS TB c now) as [[ie ix]|e]; cbn [bind] in H; [| discriminate H].
  destruct ix; [| destruct ie].
  - destruct (set_add email (expired_users a)) as [ex|e] eqn:Hex; cbn [bind] in H; [| discriminate H].
    injection H as <-; apply (acc_inv_step a email); auto.
    exact (set_add_members _ _ _ Hex).
  - destruct (set_add email (expiring_users a)) as [eg|e] eqn:Heg; cbn [bind] in H; [| discriminate H].
    injection H as <-; apply (acc_inv_step a email); auto.
    exact (set_add_members _ _ _ Heg).
  - injection H as <-; apply (acc_inv_step a email); auto.
Qed.

Lemma fold_clients_inv : forall TS TB onl now cs a a',
  acc_inv a -> fold_res (process_client TS TB onl now) a cs = Ok a' -> acc_inv a'.
Proof.
  intros TS TB onl now cs; induction cs as [|c cs IH]; intros a a' Hinv H; simpl in H.
  - injection H as <-; exact Hinv.
  - destruct (process_client TS TB onl now a c) as [a1|e] eqn:E; cbn [bind] in H; [| discriminate H].
    exact (IH a1 a' (process_client_inv _ _ _ _ _ _ _ Hinv E) H).
Qed.

Lemma process_inbound_inv : forall TS TB json_loads onl now a ib a',
  acc_inv a -> process_inbound TS TB json_loads onl now a ib = Ok a' -> acc_inv a'.
Proof.
  intros TS TB json_loads onl now a ib a' Hinv H; unfold process_inbound in H.
  destruct (get_int_or0 ib "up") as [u|e]; cbn [bind] in H; [| discriminate H].
  destruct (get_int_or0 ib "down") as [dn|e]; cbn [bind] in H; [| discriminate H].
  destruct (get_int_or0 ib "total") as [t|e]; cbn [bind] in H; [| discriminate H].
  destruct (_extract_clients_from_inbound json_loads ib) as [cs|e]; cbn [bind] in H;
    [| discriminate H].
  destruct (Z.eqb t 0); refine (fold_clients_inv _ _ _ _ _ _ _ _ H); exact Hinv.
Qed.

(** [panel_lists_within_users]: every identifier in a panel's [online],
    [expiring] or [expired] list is in its [users] list (or equal, by
    [==], to one that is): an identifier is added to [all_users] before
    it can be added to any other set. *)
Theorem panel_lists_within_users : forall TS TB json_loads name ibs onl now snap,
  build_panel_snapshot TS TB json_loads name ibs onl now = Ok snap ->
  exists u, snap_field snap "lists" "users" = Some (PList u)
  /\ forall f l x, In f ["online"; "expiring"; "expired"] ->
       snap_field snap "lists" f = Some (PList l) -> In x l -> covered_by x u.
Proof.
  intros TS TB json_loads name ibs onl now snap H.
  destruct (build_panel_snapshot_fields _ _ _ _ _ _ _ _ H)
    as (acc & su & so & sg & sx & Hacc & Hsu & Hso & Hsg & Hsx & Lu & Lo & Lg & Lx & _).
  assert (Hinv : acc_inv acc).
  { unfold build_panel_sets in Hacc.
    destruct (set_of_list_aux [] onl) as [oc|e]; cbn [bind] in Hacc; [| discriminate Hacc].
    assert (Hgen : forall ibs a, acc_inv a ->
              fold_res (process_inbound TS TB json_loads oc now) a ibs = Ok acc -> acc_inv acc).
    { induction ibs0 as [|ib ibs0 IH]; intros a Ha Hf; simpl in Hf.
      - injection Hf as <-; exact Ha.
      - destruct (process_inbound TS TB json_loads oc now a ib) as [a1|e] eqn:E; cbn [bind] in Hf;
          [| discriminate Hf].
        exact (IH a1 (process_inbound_inv _ _ _ _ _ _ _ _ Ha E) Hf). }
    apply (Hgen ibs empty_acc); [| exact Hacc].
    intros x [Hx | [Hx | Hx]]; destruct Hx. }
  exists su; split; [exact Lu |].
  intros f l x Hf Hl Hx.
  assert (Hmem : In x (online_users acc) \/ In x (expiring_users acc) \/ In x (expired_users acc)).
  { simpl in Hf; destruct Hf as [<- | [<- | [<- | []]]];
    [ rewrite Lo in Hl; injection Hl as <-; left;
      exact (Permutation_in _ (py_sorted_perm _ _ Hso) Hx)
    | rewrite Lg in Hl; injection Hl as <-; right; left;
      exact (Permutation_in _ (py_sorted_perm _ _ Hsg) Hx)
    | rewrite Lx in Hl; injection Hl as <-; right; right;
      exact (Permutation_in _ (py_sorted_perm _ _ Hsx) Hx) ]. }
  destruct (Hinv x Hmem) as [y [Hy Heq]]; exists y; split; [| exact Heq].
  exact (Permutation_in _ (Permutation_sym (py_sorted_perm _ _ Hsu)) Hy).
Qed.

Lemma panel_lists_within_users_witness :
  exists u, snap_field
      (PDict [(KStr "panel_name", PStr "P");
              (KStr "counts", PDict [(KStr "users", PInt 2); (KStr "online", PInt 1);
                                     (KStr "expiring", PInt 0); (KStr "expired", PInt 1)]);
              (KStr "usage", PDict [(KStr "used", PInt 5); (KStr "total", PInt 100);
                                    (KStr "remaining", PInt 95); (KStr "unlimited", PBool false)]);
              (KStr "lists", PDict [(KStr "users", PList [PStr "a"; PStr "b"]);
                                    (KStr "online", PList [PStr "a"]);
                                    (KStr "expiring", PList []);
                                    (KStr "expired", PList [PStr "b"])])])
      "lists" "users" = Some (PList u)
    /\ covered_by (PStr "b") u.
Proof.
  destruct (panel_lists_within_users default_seconds_threshold default_bytes_threshold
              no_json "P" [two_client_inbound] [PStr "a"] 0%float _
              ltac:(vm_compute; reflexivity)) as [u [Hu Hcov]].
  exists u; split; [exact Hu |].
  apply (Hcov "expired" [PStr "b"] (PStr "b")); [simpl; tauto | reflexivity | simpl; tauto].
Defined.

(** ** Change detection *)

Lemma set_diff_nil_r : forall a, set_diff a [] = a.
Proof.
  intro a; unfold set_diff; induction a as [|x a IH]; simpl; [reflexivity | f_equal; exact IH].
Qed.

(** [new_panel_announces_all]: for a panel with no entry in the stored
    snapshot (looked up by [str(panel_id)]), every client in its current
    [expiring] list gets an enteredExpiring event and every client in its
    [expired] list an enteredExpired one, in set iteration order. *)
Theorem new_panel_announces_all : forall set_iter d pid cp name X Y,
  dict_lookup (KStr (key_str pid)) d = None ->
  py_get cp "panel_name" (PStr ("Panel " ++ key_str pid)) = Ok name ->
  status_set cp "expiring" = Ok X ->
  status_set cp "expired" = Ok Y ->
  panel_changes set_iter (PDict d) pid cp
  = Ok (map (fun e => mk_event pid name e enteredExpiring) (set_iter X)
        ++ map (fun e => mk_event pid name e enteredExpired) (set_iter Y)).
Proof.
  intros set_iter d pid cp name X Y Hd Hn HX HY.
  assert (Hprev : prev_panel_of (PDict d) pid = Ok (PDict []))
    by (unfold prev_panel_of, py_get_key; rewrite Hd; reflexivity).
  assert (Hempty : forall f, status_set (PDict []) f = Ok []) by reflexivity.
  unfold panel_changes; rewrite Hn, HX, HY, Hprev; cbn [bind].
  rewrite !Hempty; cbn [bind].
  rewrite !set_diff_nil_r; reflexivity.
Qed.

Lemma new_panel_announces_all_witness :
  panel_changes (fun l => l) (PDict []) (KInt 7) (expiring_panel "P" ["a"])
  = Ok [mk_event (KInt 7) (PStr "P") (PStr "a") enteredExpiring].
Proof.
  apply (new_panel_announces_all (fun l => l) [] (KInt 7) (expiring_panel "P" ["a"])
           (PStr "P") [PStr "a"] []); reflexivity.
Defined.

(** No float of the value is a NaN. *)
Fixpoint no_nan (v : PyVal) : bool :=
  match v with
  | PFloat f => negb (PrimFloat.is_nan f)
  | PList l => forallb no_nan l
  | PDict d => forallb (fun kv => no_nan (snd kv)) d
  | _ => true
  end.

Lemma float_ltb_irrefl : forall f, PrimFloat.ltb f f = false.
Proof.
  intro f; rewrite FloatAxioms.ltb_spec; unfold SpecFloat.SFltb.
  destruct (Prim2SF f) as [s|s| |s m e]; simpl; try destruct s; simpl; try reflexivity;
  rewrite ?Z.compare_refl, ?Pos.compare_cont_refl; reflexivity.
Qed.

Lemma py_eq_refl_val : forall x, py_hashable x = true -> no_nan x = true -> py_eq x x = true.
Proof.
  intros [|b|z|f|s|l|d] Hh Hn; unfold py_eq; simpl in *; try discriminate Hh.
  - reflexivity.
  - rewrite Z.compare_refl; reflexivity.
  - rewrite Z.compare_refl; reflexivity.
  - rewrite float_ltb_irrefl; unfold PrimFloat.is_nan in Hn.
    destruct (PrimFloat.eqb f f); [reflexivity | discriminate Hn].
  - apply String.eqb_refl.
Qed.

Lemma dict_lookup_forallb : forall (P : PyVal -> bool) k d v,
  forallb (fun kv => P (snd kv)) d = true -> dict_lookup k d = Some v -> P v = true.
Proof.
  intros P k d v; induction d as [|[k' v'] d IH]; simpl; [discriminate |].
  intros H Hl; apply andb_prop in H as [H1 H2].
  destruct (key_eqb k k'); [injection Hl as <-; exact H1 | exact (IH H2 Hl)].
Qed.

Lemma py_get_no_nan : forall o k dflt v,
  no_nan o = true -> no_nan dflt = true -> py_get o k dflt = Ok v -> no_nan v = true.
Proof.
  intros [] k dflt v Ho Hd H; try discriminate H.
  rewrite py_get_dict in H; injection H as <-.
  destruct (dict_lookup (KStr k) d) eqn:E; [| exact Hd].
  exact (dict_lookup_forallb no_nan _ _ _ Ho E).
Qed.

Lemma set_of_list_aux_members : forall l acc s,
  set_of_list_aux acc l = Ok s ->
  forall x, In x s -> In x acc \/ (In x l /\ py_hashable x = true).
Proof.
  induction l as [|v l IH]; intros acc s H x Hx; simpl in H.
  - injection H as <-; left; exact Hx.
  - destruct (set_add v acc) as [acc'|e] eqn:E; cbn [bind] in H; [| discriminate H].
    destruct (IH acc' s H x Hx) as [Hin | [Hin Hh]]; [| right; split; [right; exact Hin | exact Hh]].
    destruct (set_add_members _ _ _ E x Hin) as [Ha | ->]; [left; exact Ha |].
    right; split; [left; reflexivity |].
    unfold set_add in E; destruct (py_hashable v); [reflexivity | discriminate E].
Qed.

Lemma status_set_refl : forall panel f X,
  no_nan panel = true -> status_set panel f = Ok X -> forall x, In x X -> py_eq x x = true.
Proof.
  intros panel f X Hp H x Hx; unfold status_set in H.
  destruct (py_get panel "lists" (PDict [])) as [lists|e] eqn:El; cbn [bind] in H; [| discriminate H].
  destruct (py_get lists f (PList [])) as [v|e] eqn:Ev; cbn [bind] in H; [| discriminate H].
  pose proof (py_get_no_nan _ _ (PDict []) _ Hp eq_refl El) as Hl.
  pose proof (py_get_no_nan _ _ (PList []) _ Hl eq_refl Ev) as Hv.
  unfold py_set in H.
  destruct (py_iter v) as [items|e] eqn:Ei; cbn [bind] in H; [| discriminate H].
  destruct (set_of_list_aux_members _ _ _ H x Hx) as [[] | [Hin Hh]].
  apply py_eq_refl_val; [exact Hh |].
  destruct v; simpl in Ei; try discriminate Ei; injection Ei as <-.
  - apply in_map_iff in Hin as [c [<- _]]; reflexivity.
  - simpl in Hv; rewrite forallb_forall in Hv; exact (Hv x Hin).
  - apply in_map_iff in Hin as [[k w] [<- _]]; destruct k; reflexivity.
Qed.

Lemma set_diff_self : forall X, (forall x, In x X -> py_eq x x = true) -> set_diff X X = [].
Proof.
  intros X H; unfold set_diff.
  assert (Hgen : forall l, (forall x, In x l -> In x X) ->
            filter (fun x => negb (existsb (py_eq x) X)) l = []).
  { induction l as [|x l IH]; intro Hl; simpl; [reflexivity |].
    assert (Hx : In x X) by (apply Hl; left; reflexivity).
    rewrite (proj2 (existsb_exists (py_eq x) X) (ex_intro _ x (conj Hx (H x Hx)))); simpl.
    apply IH; intros y Hy; apply Hl; right; exact Hy. }
  apply Hgen; auto.
Qed.

Lemma lookup_stringified : forall items k v,
  keys_nodup (map (fun kv => KStr (key_str (fst kv))) items) = true -> In (k, v) items ->
  dict_lookup (KStr (key_str k))
    (map (fun kv => (KStr (key_str (fst kv)), stringify_keys (snd kv))) items)
  = Some (stringify_keys v).
Proof.
  induction items as [|[k' v'] items IH]; intros k v Hnd Hin; simpl in *; [destruct Hin |].
  apply andb_prop in Hnd as [Hhd Hnd].
  destruct Hin as [E | Hin].
  - injection E as -> ->; rewrite String.eqb_refl; reflexivity.
  - destruct (String.eqb (key_str k) (key_str k')) eqn:E; [| exact (IH k v Hnd Hin)].
    apply String.eqb_eq in E.
    rewrite forallb_forall in Hhd.
    assert (Hm : In (KStr (key_str k)) (map (fun kv => KStr (key_str (fst kv))) items))
      by (apply in_map_iff; exists (k, v); split; [reflexivity | exact Hin]).
    specialize (Hhd _ Hm); simpl in Hhd; rewrite E, String.eqb_refl in Hhd; discriminate Hhd.
Qed.

Lemma panels_loop_silent : forall set_iter ls items,
  (forall p, In p items -> panel_changes set_iter ls (fst p) (snd p) = Ok []
                           \/ exists e, panel_changes set_iter ls (fst p) (snd p) = Err e) ->
  fst (panels_loop set_iter ls items) = [].
Proof.
  intros set_iter ls; induction items as [|[pid cp] items IH]; intro H; simpl; [reflexivity |].
  destruct (H (pid, cp) (or_introl eq_refl)) as [E | [e E]]; simpl in E; rewrite E; [| reflexivity].
  specialize (IH (fun p Hp => H p (or_intror Hp))).
  destruct (panels_loop set_iter ls items) as [evs err]; simpl in IH |- *; exact IH.
Qed.

(** [recheck_after_save_silent]: once a viewer's snapshot has been stored,
    checking the viewer again against the same snapshot sends no
    notification: each panel is found back under [str(panel_id)] and its
    [expiring] and [expired] sets are unchanged.  This holds for a
    snapshot whose panel ids stay distinct as strings, whose panel
    entries have string keys, and which holds no NaN. *)
Theorem recheck_after_save_silent : forall set_iter t tid items n1 n2,
  (forall l, Permutation (set_iter l) l) ->
  str_keys_distinct (PDict items) = true ->
  Forall (fun p => all_keys_str (snd p) = true /\ no_nan (snd p) = true) items ->
  fst (check_viewer set_iter (save_snapshot t tid (PDict items) n1) tid (PDict items) n2) = [].
Proof.
  intros set_iter t tid items n1 n2 Hperm Hdist Hpanels.
  unfold check_viewer.
  destruct items as [|p0 items0] eqn:Hitems; [reflexivity |].
  rewrite <- Hitems in *; cbn [py_truthy negb].
  rewrite get_after_save, (json_roundtrip _ Hdist).
  assert (Habs : snapshot_absent (Some (stringify_keys (PDict items))) = false)
    by (rewrite Hitems; reflexivity).
  rewrite Habs.
  assert (Hsil : fst (panels_loop set_iter (stringify_keys (PDict items)) items) = []).
  { apply panels_loop_silent; intros [pid cp] Hin; cbn [fst snd].
    rewrite Forall_forall in Hpanels; destruct (Hpanels _ Hin) as [Hk Hn]; simpl in Hk, Hn.
    assert (Hprev : prev_panel_of (stringify_keys (PDict items)) pid = Ok cp).
    { unfold prev_panel_of; simpl.
      simpl in Hdist; apply andb_prop in Hdist as [Hnd _].
      rewrite (lookup_stringified items pid cp Hnd Hin), (stringify_keys_str cp Hk); reflexivity. }
    unfold panel_changes; rewrite Hprev.
    destruct (py_get cp "panel_name" _) as [name|e]; cbn [bind]; [| right; eexists; reflexivity].
    destruct (status_set cp "expiring") as [X|e] eqn:HX; cbn [bind]; [| right; eexists; reflexivity].
    destruct (status_set cp "expired") as [Y|e] eqn:HY; cbn [bind]; [| right; eexists; reflexivity].
    left.
    rewrite (set_diff_self X (status_set_refl _ _ _ Hn HX)),
            (set_diff_self Y (status_set_refl _ _ _ Hn HY)).
    pose proof (Permutation_sym (Hperm [])) as Hnil; apply Permutation_nil in Hnil; rewrite Hnil; reflexivity. }
  destruct (panels_loop set_iter (stringify_keys (PDict items)) items) as [evs [e|]] eqn:E;
    simpl in Hsil; subst evs; clear E; (destruct items; [discriminate Hitems | reflexivity]).
Qed.

Lemma recheck_after_save_silent_witness :
  fst (check_viewer (fun l => l) (save_snapshot [] 1
         (PDict [(KInt 7, expiring_panel "P" ["a"; "b"])]) 10) 1
         (PDict [(KInt 7, expiring_panel "P" ["a"; "b"])]) 20) = [].
Proof.
  apply recheck_after_save_silent.
  - intro l; apply Permutation_refl.
  - vm_compute; reflexivity.
  - repeat constructor.
Defined.

(** ** Sorted lists *)

Lemma insert_by_hdrel : forall (A : Type) (le : A -> A -> bool) a x l,
  HdRel (fun p q => le p q = true) a l -> le a x = true ->
  HdRel (fun p q => le p q = true) a (insert_by le x l).
Proof.
  intros A le a x [|y l] Hd Hax; simpl; [constructor; exact Hax |].
  destruct (le x y); constructor; [exact Hax | inversion Hd; assumption].
Qed.

Lemma insert_by_sorted : forall (A : Type) (le : A -> A -> bool),
  (forall p q, le p q = false -> le q p = true) ->
  forall x l, Sorted (fun p q => le p q = true) l ->
  Sorted (fun p q => le p q = true) (insert_by le x l).
Proof.
  intros A le Htot x l; induction l as [|y l IH]; intro Hs; simpl.
  - repeat constructor.
  - destruct (le x y) eqn:E.
    + constructor; [exact Hs | constructor; exact E].
    + inversion Hs as [|? ? Hl Hd]; subst.
      constructor; [exact (IH Hl) | apply insert_by_hdrel; [exact Hd | exact (Htot _ _ E)]].
Qed.

Lemma sort_by_sorted : forall (A : Type) (le : A -> A -> bool),
  (forall p q, le p q = false -> le q p = true) ->
  forall l, Sorted (fun p q => le p q = true) (sort_by le l).
Proof.
  intros A le Htot l; induction l as [|x l IH]; simpl; [constructor |].
  apply insert_by_sorted; [exact Htot | exact IH].
Qed.

Lemma string_leb_flip : forall p q, String.leb p q = false -> String.leb q p = true.
Proof. intros p q H; destruct (String.leb_total p q) as [E | E]; [congruence | exact E]. Qed.

Lemma all_strings_some : forall l, (forall x, In x l -> exists s, x = PStr s) ->
  exists ss, all_strings l = Some ss.
Proof.
  induction l as [|v l IH]; intro H; simpl; [exists []; reflexivity |].
  destruct (H v (or_introl eq_refl)) as [s ->].
  destruct IH as [ss Hss]; [intros x Hx; apply H; right; exact Hx |].
  rewrite Hss; exists (s :: ss); reflexivity.
Qed.

Lemma py_sorted_strings_sorted : forall l ss,
  py_sorted l = Ok (map PStr ss) -> Sorted (fun p q => String.leb p q = true) ss.
Proof.
  intros l ss H.
  pose proof (py_sorted_perm _ _ H) as Hp.
  unfold py_sorted in H.
  destruct l as [|a [|b r]].
  - injection H as E; destruct ss; [constructor | discriminate E].
  - injection H as E; destruct ss as [|s [|s' ss]]; try discriminate E; repeat constructor.
  - destruct (all_strings (a :: b :: r)) as [ss0|] eqn:E.
    + injection H as H.
      assert (Hinj : forall x y : list string, map PStr x = map PStr y -> x = y).
      { induction x as [|s x IHx]; intros [|s' y] Hxy; simpl in Hxy; try discriminate Hxy;
          [reflexivity | injection Hxy as -> Hxy; rewrite (IHx y Hxy); reflexivity]. }
      rewrite <- (Hinj _ _ H); apply sort_by_sorted, string_leb_flip.
    + exfalso.
      destruct (all_strings_some (a :: b :: r)) as [ss0 Hss0]; [| congruence].
      intros x Hx; apply (Permutation_in _ (Permutation_sym Hp)) in Hx.
      apply in_map_iff in Hx as [s [<- _]]; exists s; reflexivity.
Qed.

(** [panel_lists_sorted]: each list of a panel entry ([users], [online],
    [expiring], [expired]) whose members are strings is in ascending
    order (by code point, which is the byte order of UTF-8). *)
Theorem panel_lists_sorted : forall TS TB json_loads name ibs onl now snap f ss,
  build_panel_snapshot TS TB json_loads name ibs onl now = Ok snap ->
  In f ["users"; "online"; "expiring"; "expired"] ->
  snap_field snap "lists" f = Some (PList (map PStr ss)) ->
  Sorted (fun p q => String.leb p q = true) ss.
Proof.
  intros TS TB json_loads name ibs onl now snap f ss H Hf Hl.
  destruct (build_panel_snapshot_fields _ _ _ _ _ _ _ _ H)
    as (acc & su & so & sg & sx & _ & Hsu & Hso & Hsg & Hsx & Lu & Lo & Lg & Lx & _).
  simpl in Hf; destruct Hf as [<- | [<- | [<- | [<- | []]]]];
  [ rewrite Lu in Hl | rewrite Lo in Hl | rewrite Lg in Hl | rewrite Lx in Hl ];
  injection Hl as ->; eapply py_sorted_strings_sorted; eassumption.
Qed.

Lemma panel_lists_sorted_witness :
  Sorted (fun p q => String.leb p q = true) ["a"; "b"].
Proof.
  apply (panel_lists_sorted default_seconds_threshold default_bytes_threshold
           no_json "P" [two_client_inbound] [PStr "a"] 0%float
           (PDict [(KStr "panel_name", PStr "P");
              (KStr "counts", PDict [(KStr "users", PInt 2); (KStr "online", PInt 1);
                                     (KStr "expiring", PInt 0); (KStr "expired", PInt 1)]);
              (KStr "usage", PDict [(KStr "used", PInt 5); (KStr "total", PInt 100);
                                    (KStr "remaining", PInt 95); (KStr "unlimited", PBool false)]);
              (KStr "lists", PDict [(KStr "users", PList [PStr "a"; PStr "b"]);
                                    (KStr "online", PList [PStr "a"]);
                                    (KStr "expiring", PList []);
                                    (KStr "expired", PList [PStr "b"])])])
           "users");
  [vm_compute; reflexivity | simpl; tauto | reflexivity].
Defined.
